(** * Sweden-scraper: the listing-extraction pipeline of [server.js]

    A shallow embedding of [scrapePage], [findBusinessListings],
    [scrapeAllWebsites], [deduplicateBusinesses], [filterByProfitRange]
    and the handler of the route [/scrape], with the JavaScript string
    and regular-expression primitives they use, followed by the
    properties of the pipeline.

    Conventions.
    - A JavaScript string is the list of its UTF-16 code units.
    - [undefined] and [null] are [None].
    - The network and the timers are a trace of events; the answer to a
      request is a function of the trace so far and of the URL.
    - [console.log] output and the choice of the user agent are not
      modelled: nothing the functions return depends on them. *)

From Stdlib Require Import String Ascii.
From Stdlib Require Import List NArith Arith Bool Lia.
From Stdlib Require Import Sorting.Permutation Sorting.Sorted.
From Equations Require Import Equations.
Import ListNotations.

Set Implicit Arguments.

(* ================================================================== *)
(** * Strings *)
(* ================================================================== *)

Definition jsstring := list N.

(** String literals are written in the file as UTF-8 and decoded to UTF-16
    code units, so that ["Omsättning"] has ten units, as in the engine. *)
Fixpoint utf16_of_utf8 (bs : list N) : jsstring :=
  match bs with
  | [] => []
  | b :: r1 =>
    if (b <? 0x80)%N then b :: utf16_of_utf8 r1
    else match r1 with
    | [] => [b]
    | b2 :: r2 =>
      if (b <? 0xE0)%N then
        N.lor (N.shiftl (N.land b 0x1F) 6) (N.land b2 0x3F) :: utf16_of_utf8 r2
      else match r2 with
      | [] => [b]
      | b3 :: r3 =>
        if (b <? 0xF0)%N then
          N.lor (N.shiftl (N.land b 0x0F) 12)
                (N.lor (N.shiftl (N.land b2 0x3F) 6) (N.land b3 0x3F))
            :: utf16_of_utf8 r3
        else match r3 with
        | [] => [b]
        | b4 :: r4 =>
          let cp := N.lor (N.shiftl (N.land b 0x07) 18)
                   (N.lor (N.shiftl (N.land b2 0x3F) 12)
                   (N.lor (N.shiftl (N.land b3 0x3F) 6) (N.land b4 0x3F))) in
          let v := (cp - 0x10000)%N in
          (0xD800 + N.shiftr v 10)%N :: (0xDC00 + N.land v 0x3FF)%N
            :: utf16_of_utf8 r4
        end
      end
    end
  end.

Definition js (s : string) : jsstring :=
  utf16_of_utf8 (map N_of_ascii (list_ascii_of_string s)).

Definition jsstring_eqb (a b : jsstring) : bool :=
  if list_eq_dec N.eq_dec a b then true else false.

Module Char.
Local Open Scope N_scope.

Definition between (lo hi c : N) : bool := (lo <=? c) && (c <=? hi).

Definition isDigit (c : N) : bool := between 48 57 c.
Definition isLower (c : N) : bool := between 97 122 c.
Definition isUpper (c : N) : bool := between 65 90 c.

(** [\w]: [[A-Za-z0-9_]]. *)
Definition isWord (c : N) : bool :=
  isLower c || isUpper c || isDigit c || (c =? 95).

(** [\s], and the characters [trim] removes: WhiteSpace and
    LineTerminator of ECMAScript. *)
Definition isSpace (c : N) : bool :=
  between 9 13 c || (c =? 32) || (c =? 0xA0) || (c =? 0x1680)
  || between 0x2000 0x200A c || (c =? 0x2028) || (c =? 0x2029)
  || (c =? 0x202F) || (c =? 0x205F) || (c =? 0x3000) || (c =? 0xFEFF).

(** [toLowerCase] on one code unit.  Basic Latin and Latin-1 map as
    Unicode says; so do the five code points outside Latin-1 whose lower
    case has a unit inside it: dotted capital I, capital Y with
    diaeresis, capital sharp s, Kelvin and Angstrom.  Any other cased
    letter (Greek, Cyrillic, Latin Extended, ...) maps, in the engine,
    to units outside Latin-1, where every consumer below treats it as
    it treats the unmapped letter; such units are left as they are. *)
Definition toLower (c : N) : jsstring :=
  if isUpper c then [c + 32]
  else if between 0xC0 0xDE c && negb (c =? 0xD7) then [c + 32]
  else if c =? 0x130 then [105; 0x307]
  else if c =? 0x178 then [0xFF]
  else if c =? 0x1E9E then [0xDF]
  else if c =? 0x212A then [107]
  else if c =? 0x212B then [0xE5]
  else [c].

(** Canonicalize of the [i] flag (no [u] flag): the upper case of the
    unit when that is a single unit, except that a unit outside Basic
    Latin never canonicalizes into it.  Exact on Latin-1; the units
    outside it stay as they are, which no pattern of this program
    can tell apart from their true canonical form. *)
Definition canonicalize (c : N) : N :=
  if isLower c then c - 32
  else if between 0xE0 0xFE c && negb (c =? 0xF7) then c - 32
  else if c =? 0xFF then 0x178
  else if c =? 0xB5 then 0x39C
  else c.
End Char.

Definition toLowerCase (s : jsstring) : jsstring := flat_map Char.toLower s.

Fixpoint dropWhile {A} (f : A -> bool) (l : list A) : list A :=
  match l with
  | [] => []
  | x :: r => if f x then dropWhile f r else l
  end.

Definition trimStart (s : jsstring) : jsstring := dropWhile Char.isSpace s.
Definition trimEnd (s : jsstring) : jsstring := rev (dropWhile Char.isSpace (rev s)).
Definition trim (s : jsstring) : jsstring := trimEnd (trimStart s).

Fixpoint startsWith (s k : jsstring) : bool :=
  match k, s with
  | [], _ => true
  | _ :: _, [] => false
  | a :: k', b :: s' => (a =? b)%N && startsWith s' k'
  end.

(** [s.includes(k)] *)
Fixpoint includes (s k : jsstring) : bool :=
  startsWith s k ||
  match s with
  | [] => false
  | _ :: s' => includes s' k
  end.

(** [parts.join(sep)] *)
Fixpoint join (sep : jsstring) (parts : list jsstring) : jsstring :=
  match parts with
  | [] => []
  | [p] => p
  | p :: r => p ++ sep ++ join sep r
  end.

(** [s.split(sep)] for a separator of one code unit, as in
    [block.split('\n')]: there is always at least one piece. *)
Fixpoint splitOn (sep : N) (s : jsstring) : list jsstring :=
  match s with
  | [] => [[]]
  | c :: r =>
    if (c =? sep)%N then [] :: splitOn sep r
    else match splitOn sep r with
         | p :: ps => (c :: p) :: ps
         | [] => [[c]]
         end
  end.

(** [s.substring(0, n)] *)
Definition substring0 (n : nat) (s : jsstring) : jsstring := firstn n s.

(* ================================================================== *)
(** * Regular expressions *)
(* ================================================================== *)

(** The fragment of ECMAScript patterns the program uses, with the
    backtracking semantics of the language: alternatives in order, greedy
    and lazy repetition, capture groups, positive lookahead. *)
Inductive regex : Type :=
| Eps
| Chr (c : N)
| Cls (f : N -> bool)
| Seq (a b : regex)
| Alt (a b : regex)
| Star (greedy : bool) (a : regex)
| Group (i : nat) (a : regex)
| Look (a : regex).

Definition Plus (greedy : bool) (a : regex) : regex := Seq a (Star greedy a).
Definition Opt (a : regex) : regex := Alt a Eps.

Fixpoint lit (s : jsstring) : regex :=
  match s with
  | [] => Eps
  | [c] => Chr c
  | c :: r => Seq (Chr c) (lit r)
  end.

Fixpoint alts (rs : list regex) : regex :=
  match rs with
  | [] => Cls (fun _ => false)
  | [r] => r
  | r :: rest => Alt r (alts rest)
  end.

Record MState : Type := mkMState {
  rest : jsstring;
  caps : list (nat * jsstring)
}.

Fixpoint lookupCap (i : nat) (cs : list (nat * jsstring)) : option jsstring :=
  match cs with
  | [] => None
  | (j, v) :: r => if Nat.eqb i j then Some v else lookupCap i r
  end.

(** A literal under the [i] flag matches the units with its canonical
    form.  The classes that occur under [i] in this program hold digits,
    blanks and punctuation only, which canonicalize to themselves and to
    which nothing else canonicalizes, so a class is matched as written. *)
Definition chrMatches (ic : bool) (p c : N) : bool :=
  if ic then (Char.canonicalize p =? Char.canonicalize c)%N else (p =? c)%N.

(** The iterations of a star whose body is matched by [body]: greedy
    tries one more iteration before going on with [k], lazy goes on with
    [k] first.  An iteration that consumes nothing is rejected, so the
    length of the input plus one bounds the iterations. *)
Fixpoint starLoop (body : MState -> (MState -> option MState) -> option MState)
         (greedy : bool) (k : MState -> option MState) (n : nat) (st : MState)
         {struct n} : option MState :=
  match n with
  | O => k st
  | S n' =>
    if greedy then
      match body st (fun st' =>
              if Nat.ltb (length (rest st')) (length (rest st))
              then starLoop body greedy k n' st' else None) with
      | Some res => Some res
      | None => k st
      end
    else
      match k st with
      | Some res => Some res
      | None =>
        body st (fun st' =>
          if Nat.ltb (length (rest st')) (length (rest st))
          then starLoop body greedy k n' st' else None)
      end
  end.

(** [rmatch ic r st k]: match [r] at the start of [rest st], then go on
    with [k]; [None] is failure, and makes the caller try its next
    choice. *)
Fixpoint rmatch (ic : bool) (r : regex) (st : MState)
         (k : MState -> option MState) {struct r} : option MState :=
  match r with
  | Eps => k st
  | Chr p =>
    match rest st with
    | c :: s' => if chrMatches ic p c then k (mkMState s' (caps st)) else None
    | [] => None
    end
  | Cls f =>
    match rest st with
    | c :: s' => if f c then k (mkMState s' (caps st)) else None
    | [] => None
    end
  | Seq a b => rmatch ic a st (fun st' => rmatch ic b st' k)
  | Alt a b =>
    match rmatch ic a st k with
    | Some res => Some res
    | None => rmatch ic b st k
    end
  | Star greedy a =>
    starLoop (rmatch ic a) greedy k (S (length (rest st))) st
  | Group i a =>
    rmatch ic a st (fun st' =>
      k (mkMState (rest st')
           ((i, firstn (length (rest st) - length (rest st')) (rest st))
              :: caps st')))
  | Look a =>
    match rmatch ic a st Some with
    | Some st' => k (mkMState (rest st) (caps st'))
    | None => None
    end
  end.

(** A match attempt at the start of [s]. *)
Definition matchAt (ic : bool) (r : regex) (s : jsstring) : option MState :=
  rmatch ic r (mkMState s []) Some.

Record Match : Type := mkMatch {
  m_text : jsstring;              (* [m[0]] *)
  m_groups : list (nat * jsstring)
}.

(** [s.match(r)] without the [g] flag: the leftmost match. *)
Fixpoint search (ic : bool) (r : regex) (s : jsstring) : option Match :=
  match matchAt ic r s with
  | Some st => Some (mkMatch (firstn (length s - length (rest st)) s) (caps st))
  | None =>
    match s with
    | [] => None
    | _ :: s' => search ic r s'
    end
  end.

(** Truthiness of [s.match(r)] with the [g] flag: the array of all the
    matches, or [null] when there is none. *)
Definition matches (ic : bool) (r : regex) (s : jsstring) : bool :=
  match search ic r s with Some _ => true | None => false end.

(** [s.replace(r, by)] with the [g] flag and a constant replacement. *)
Fixpoint replaceFrom (fuel : nat) (ic : bool) (r : regex) (by_ : jsstring)
         (s : jsstring) : jsstring :=
  match fuel with
  | O => s
  | S fuel' =>
    match matchAt ic r s with
    | Some st =>
      if Nat.ltb (length (rest st)) (length s)
      then by_ ++ replaceFrom fuel' ic r by_ (rest st)
      else match s with
           | [] => by_
           | c :: s' => by_ ++ c :: replaceFrom fuel' ic r by_ s'
           end
    | None =>
      match s with
      | [] => []
      | c :: s' => c :: replaceFrom fuel' ic r by_ s'
      end
    end
  end.

Definition replaceAll (ic : bool) (r : regex) (by_ : jsstring)
           (s : jsstring) : jsstring :=
  replaceFrom (S (length s)) ic r by_ s.

(** [s.split(r)] for a pattern without capture groups.  [cur] is the text
    from the last split point [p] to the position [q] under test, [s] the
    text from [q] on.  A match that ends at [p] is skipped; a match found
    at [q] closes the piece [cur], and the text it consumed is dropped. *)
Fixpoint splitFrom (fuel : nat) (ic : bool) (r : regex) (cur s : jsstring)
  : list jsstring :=
  match fuel with
  | O => [cur ++ s]
  | S fuel' =>
    match s with
    | [] => [cur]
    | c :: s' =>
      match matchAt ic r s with
      | None => splitFrom fuel' ic r (cur ++ [c]) s'
      | Some st =>
        if Nat.ltb (length (rest st)) (length s)
        then cur :: splitFrom fuel' ic r [] (rest st)
        else match cur with
             | [] => splitFrom fuel' ic r [c] s'
             | _ :: _ => cur :: splitFrom fuel' ic r [c] s'
             end
      end
    end
  end.

Definition splitRe (ic : bool) (r : regex) (s : jsstring) : list jsstring :=
  match s with
  | [] => match matchAt ic r [] with Some _ => [] | None => [[]] end
  | _ :: _ => splitFrom (S (length s)) ic r [] s
  end.

(* ================================================================== *)
(** * Data model *)
(* ================================================================== *)

(** One entry of [WEBSITES].  [name] is what the property read
    [websiteConfig.name] gives: [None] for an object without one. *)
Module SiteConfig.
Record t : Type := mk {
  name : option jsstring;
  baseUrl : jsstring;
  listingUrl : jsstring;
  pagination : jsstring;
  priority : nat;
  maxPages : nat
}.
End SiteConfig.

(** What [scrapePage] returns: the success object carries [html_length],
    the failure object carries [error]. *)
Module FetchResult.
Record t : Type := mk {
  success : bool;
  website : jsstring;
  url : jsstring;
  error : option jsstring;
  links : list (jsstring * jsstring);     (* text, href *)
  text : list jsstring;
  html_length : option nat
}.
End FetchResult.

Module Listing.
Record t : Type := mk {
  title : jsstring;
  company : jsstring;
  location : jsstring;
  price : jsstring;
  revenue : jsstring;
  profit : jsstring;
  industry : jsstring;
  category : jsstring;
  description : jsstring;
  link : jsstring;
  website_source : option jsstring;
  scraped_at : jsstring;
  currency : jsstring;
  extraction_method : jsstring
}.
End Listing.

Module SiteResult.
Record t : Type := mk {
  success : bool;
  url : jsstring;
  count : nat;
  businesses : list Listing.t;
  error : option jsstring;
  pages_scraped : option nat
}.
End SiteResult.

Module Summary.
Record t : Type := mk {
  total_businesses : nat;
  successful_sites : nat;
  failed_sites : nat
}.
End Summary.

Module AggregateResult.
Record t : Type := mk {
  success : bool;
  scraped_at : jsstring;
  websites : list (jsstring * SiteResult.t);   (* own properties, in order *)
  summary : Summary.t
}.
End AggregateResult.

(** [WEBSITES], as [Object.entries] lists it. *)
Definition WEBSITES : list (jsstring * SiteConfig.t) :=
  [ (js "exitpartner",
     SiteConfig.mk None (js "https://www.exitpartner.se")
       (js "https://www.exitpartner.se/foretag-till-salu/") (js "?page=") 1 8);
    (js "bolagsplatsen",
     SiteConfig.mk None (js "https://www.bolagsplatsen.se")
       (js "https://www.bolagsplatsen.se/foretag-till-salu/alla/alla")
       (js "?page=") 2 5);
    (js "objektvision",
     SiteConfig.mk None (js "https://objektvision.se")
       (js "https://objektvision.se/företag_till_salu") (js "?page=") 3 3);
    (js "smergers",
     SiteConfig.mk None (js "https://www.smergers.com")
       (js "https://www.smergers.com/businesses-for-sale-in-sweden/c415t2b/")
       (js "?page=") 4 3) ].

(* ================================================================== *)
(** * The network and the timers *)
(* ================================================================== *)

Inductive Event : Type :=
| Get (url : jsstring)          (* [axios.get(url, config)] *)
| Sleep (ms : N).               (* [setTimeout(resolve, ms)], awaited *)

Definition Trace := list Event.

(** What [cheerio] selects in a fetched document: for each [a] element
    its [href] attribute and its text, and the text of each element that
    [h1, h2, h3, h4, p, span, li, a] selects, in document order. *)
Record Document : Type := mkDocument {
  anchors : list (option jsstring * jsstring);
  elements : list jsstring;
  data_length : nat
}.

(** One run of the [try] block of [scrapePage]: it throws an error with
    this [message], or it loads this document. *)
Definition Outcome : Type := (jsstring + Document)%type.

Definition Net : Type := Trace -> jsstring -> Outcome.

(* ================================================================== *)
(** * scrapePage *)
(* ================================================================== *)

Definition isEmpty (s : jsstring) : bool :=
  match s with [] => true | _ :: _ => false end.

(** The [$('a').each] loop: anchors with a non-empty [href] and a
    non-empty trimmed text. *)
Fixpoint scrapedLinks (l : list (option jsstring * jsstring))
  : list (jsstring * jsstring) :=
  match l with
  | [] => []
  | (Some href, txt) :: r =>
    if negb (isEmpty href) && negb (isEmpty (trim txt))
    then (trim txt, href) :: scrapedLinks r
    else scrapedLinks r
  | (None, _) :: r => scrapedLinks r
  end.

Definition fetched (website url : jsstring) (d : Document) : FetchResult.t :=
  FetchResult.mk true website url None
    (scrapedLinks (anchors d)) (map trim (elements d)) (Some (data_length d)).

Definition failed (website url message : jsstring) : FetchResult.t :=
  FetchResult.mk false website url (Some message) [] [] None.

(** [scrapePage(url, website, retryCount = 0)].  A failed attempt is
    retried after [2000 * (retryCount + 1)] ms while [retryCount < 2]. *)
Equations? scrapePage (net : Net) (url website : jsstring) (retryCount : nat)
  (t : Trace) : FetchResult.t * Trace by wf (2 - retryCount) lt :=
scrapePage net url website retryCount t with net t url => {
  | inr d := (fetched website url d, t ++ [Get url]);
  | inl message with lt_dec retryCount 2 => {
    | left h :=
        let waitTime := (2000 * N.of_nat (retryCount + 1))%N in
        scrapePage net url website (retryCount + 1)
                   (t ++ [Get url; Sleep waitTime]);
    | right _ := (failed website url message, t ++ [Get url]) } }.
Proof. clear waitTime. destruct retryCount as [|[|?]]; simpl; lia. Qed.

(* ================================================================== *)
(** * findBusinessListings *)
(* ================================================================== *)

Definition LF : N := 10%N.

(** [/(?=Omsättning|omsätter|Oms\.)/i] *)
Definition reListingStart : regex :=
  Look (alts [lit (js "Omsättning"); lit (js "omsätter"); lit (js "Oms.")]).

Definition listingBlocks (allText : jsstring) : list jsstring :=
  splitRe true reListingStart allText.

Definition businessKeywords : list jsstring :=
  [js "företag"; js "verksamhet"; js "bolag"; js "business"; js "till salu"].

Definition isBusiness (block : jsstring) : bool :=
  let lowerBlock := toLowerCase block in
  existsb (fun keyword => includes lowerBlock keyword) businessKeywords.

(** The class of [/[^\w\sÅÄÖ-]/g] before negation: word characters,
    blanks, the three capital letters, and the hyphen that ends the
    class.  The pattern has no [i] flag. *)
Definition titleKept (c : N) : bool :=
  Char.isWord c || Char.isSpace c
  || (c =? 0xC5)%N || (c =? 0xC4)%N || (c =? 0xD6)%N || (c =? 45)%N.

Definition reTitleStrip : regex := Cls (fun c => negb (titleKept c)).

Definition isTitleCandidate (line : jsstring) : bool :=
  Nat.ltb 10 (length (trim line))
  && negb (includes line (js "http"))
  && negb (includes line (js "Omsättning")).

Definition titleCandidates (block : jsstring) : list jsstring :=
  filter isTitleCandidate (splitOn LF block).

(** The value of [title] when the block reaches the test
    [!title || processedText.has(title)]. *)
Definition extractTitle (block : jsstring) : jsstring :=
  match titleCandidates block with
  | first :: _ => replaceAll false reTitleStrip [] (trim first)
  | [] => []
  end.

Definition isComma (c : N) : bool := (c =? 44)%N.
Definition isDot (c : N) : bool := (c =? 46)%N.

(** [/(?:omsättning|oms|revenue)[^0-9]*([0-9,.\s]+(?:miljoner|mkr|msek|kr))/i] *)
Definition reRevenue : regex :=
  Seq (alts [lit (js "omsättning"); lit (js "oms"); lit (js "revenue")])
 (Seq (Star true (Cls (fun c => negb (Char.isDigit c))))
      (Group 1
        (Seq (Plus true (Cls (fun c => Char.isDigit c || isComma c || isDot c
                                       || Char.isSpace c)))
             (alts [lit (js "miljoner"); lit (js "mkr"); lit (js "msek");
                    lit (js "kr")])))).

(** [/(?:resultat|vinst|profit|ebitda)[^0-9]*([0-9,.\s]+(?:%|miljoner|mkr|msek))/i] *)
Definition reProfit : regex :=
  Seq (alts [lit (js "resultat"); lit (js "vinst"); lit (js "profit");
             lit (js "ebitda")])
 (Seq (Star true (Cls (fun c => negb (Char.isDigit c))))
      (Group 1
        (Seq (Plus true (Cls (fun c => Char.isDigit c || isComma c || isDot c
                                       || Char.isSpace c)))
             (alts [lit (js "%"); lit (js "miljoner"); lit (js "mkr");
                    lit (js "msek")])))).

(** [/(Stockholm|Göteborg|...|Sundsvall)/i] *)
Definition reLocation : regex :=
  Group 1
    (alts (map (fun city => lit (js city))
       ["Stockholm"; "Göteborg"; "Malmö"; "Uppsala"; "Linköping"; "Örebro";
        "Västerås"; "Norrköping"; "Helsingborg"; "Jönköping"; "Umeå";
        "Sundsvall"]%string)).

(** [/(https?:\/\/[^\s\)]+)/] *)
Definition reLink : regex :=
  Group 1
    (Seq (lit (js "http"))
    (Seq (Opt (Chr 115%N))
    (Seq (lit (js "://"))
         (Plus true (Cls (fun c => negb (Char.isSpace c || (c =? 41)%N))))))).

(** [m && m[1]]: the first group of a match, when the match exists and
    the group is a non-empty string. *)
Definition group1 (m : option Match) : option jsstring :=
  match m with
  | Some mt =>
    match lookupCap 1 (m_groups mt) with
    | Some g => if isEmpty g then None else Some g
    | None => None
    end
  | None => None
  end.

Definition matchedOr (dflt : jsstring) (ic : bool) (r : regex)
           (block : jsstring) : jsstring :=
  match group1 (search ic r block) with
  | Some g => trim g
  | None => dflt
  end.

Definition hasString (s : jsstring) (set : list jsstring) : bool :=
  existsb (jsstring_eqb s) set.

(** The listing that one block pushes. *)
Definition listingOf (now : jsstring) (rawScrapedData : FetchResult.t)
           (websiteConfig : SiteConfig.t) (block title : jsstring)
  : Listing.t :=
  let revenue := matchedOr (js "Not disclosed") true reRevenue block in
  let profit := matchedOr (js "Not disclosed") true reProfit block in
  let location := matchedOr (js "Sweden") true reLocation block in
  let description := substring0 300 block ++ js "..." in
  let link := matchedOr (FetchResult.url rawScrapedData) false reLink block in
  Listing.mk title title location (js "Price on request") revenue profit
    (js "Various") (js "Business for Sale") description link
    (SiteConfig.name websiteConfig) now (js "SEK")
    (js "text_pattern_match_refined").

(** The body of [listingBlocks.forEach], on the pair of [processedText]
    and [businesses]. *)
Definition processBlock (now : jsstring) (rawScrapedData : FetchResult.t)
           (websiteConfig : SiteConfig.t)
           (st : list jsstring * list Listing.t) (block : jsstring)
  : list jsstring * list Listing.t :=
  let (processedText, businesses) := st in
  if negb (isBusiness block) then st
  else
    let title := extractTitle block in
    if isEmpty title || hasString title processedText then st
    else (processedText ++ [title],
          businesses ++ [listingOf now rawScrapedData websiteConfig block title]).

(** [now] is the reading of the clock.  The code reads it anew for each
    listing ([new Date()] in the loop); one reading stands here for all
    of them, and no statement below mentions [scraped_at]. *)
Definition findBusinessListings (now : jsstring) (rawScrapedData : FetchResult.t)
           (websiteConfig : SiteConfig.t) : list Listing.t :=
  let allText := join [LF] (FetchResult.text rawScrapedData) in
  snd (fold_left (processBlock now rawScrapedData websiteConfig)
                 (listingBlocks allText) ([], [])).

(* ================================================================== *)
(** * scrapeAllWebsites *)
(* ================================================================== *)

Fixpoint digitsOf (d : Decimal.uint) : jsstring :=
  match d with
  | Decimal.Nil => []
  | Decimal.D0 r => 48%N :: digitsOf r
  | Decimal.D1 r => 49%N :: digitsOf r
  | Decimal.D2 r => 50%N :: digitsOf r
  | Decimal.D3 r => 51%N :: digitsOf r
  | Decimal.D4 r => 52%N :: digitsOf r
  | Decimal.D5 r => 53%N :: digitsOf r
  | Decimal.D6 r => 54%N :: digitsOf r
  | Decimal.D7 r => 55%N :: digitsOf r
  | Decimal.D8 r => 56%N :: digitsOf r
  | Decimal.D9 r => 57%N :: digitsOf r
  end.

(** [`${page}`] for a page number. *)
Definition numberToString (n : nat) : jsstring := digitsOf (Nat.to_uint n).

Definition pageUrl (config : SiteConfig.t) (page : nat) : jsstring :=
  if Nat.eqb page 1 then SiteConfig.listingUrl config
  else SiteConfig.listingUrl config ++ SiteConfig.pagination config
       ++ numberToString page.

(** [pageResult.success && (links.length > 0 || text.length > 0)] *)
Definition hasData (pageResult : FetchResult.t) : bool :=
  FetchResult.success pageResult
  && (Nat.ltb 0 (length (FetchResult.links pageResult))
      || Nat.ltb 0 (length (FetchResult.text pageResult))).

(** The loop [for (page = 1; page <= config.maxPages; page++)], entered
    at [page] with [pagesLeft = maxPages + 1 - page] iterations to go;
    the [else] branch is the [break]. *)
Fixpoint paginate (net : Net) (now websiteName : jsstring)
         (config : SiteConfig.t) (pagesLeft page : nat)
         (allBusinesses : list Listing.t) (t : Trace)
  : list Listing.t * Trace :=
  match pagesLeft with
  | O => (allBusinesses, t)
  | S pagesLeft' =>
    let url := pageUrl config page in
    let (pageResult, t1) := scrapePage net url websiteName 0 t in
    if hasData pageResult then
      let businessesFromPage := findBusinessListings now pageResult config in
      paginate net now websiteName config pagesLeft' (S page)
               (allBusinesses ++ businessesFromPage) (t1 ++ [Sleep 3000])
    else (allBusinesses, t1)
  end.

(** The page loop of one site, from [let allBusinesses = []]. *)
Definition crawlSite (net : Net) (now websiteName : jsstring)
           (config : SiteConfig.t) (t : Trace) : list Listing.t * Trace :=
  paginate net now websiteName config (SiteConfig.maxPages config) 1 [] t.

(** [Math.ceil(a / b)] for counts, [b > 0]. *)
Definition ceilDiv (a b : nat) : nat := (a + b - 1) / b.

Definition pagesScraped (config : SiteConfig.t) (allBusinesses : list Listing.t)
  : nat :=
  if Nat.ltb 0 (length allBusinesses) then
    let onListing :=
      length (filter (fun b => jsstring_eqb (Listing.link b)
                                            (SiteConfig.listingUrl config))
                     allBusinesses) in
    ceilDiv (length allBusinesses)
            (if Nat.eqb onListing 0 then 1 else onListing)
  else 0.

(** [obj[key] = v] for keys that are not integer-like, as the site
    identifiers are: an own property keeps its place, a new one is
    added last.  (An object lists integer-like keys first, in numeric
    order; no table of sites has such a key.) *)
Fixpoint setProp {V} (key : jsstring) (v : V) (obj : list (jsstring * V))
  : list (jsstring * V) :=
  match obj with
  | [] => [(key, v)]
  | (k, w) :: r =>
    if jsstring_eqb k key then (k, v) :: r else (k, w) :: setProp key v r
  end.

Fixpoint getProp {V} (key : jsstring) (obj : list (jsstring * V)) : option V :=
  match obj with
  | [] => None
  | (k, w) :: r => if jsstring_eqb k key then Some w else getProp key r
  end.

(** [entries.sort(([,a], [,b]) => a.priority - b.priority)]: the sort is
    stable, entries of equal priority keep their order. *)
Fixpoint insertByPriority (e : jsstring * SiteConfig.t)
         (l : list (jsstring * SiteConfig.t)) : list (jsstring * SiteConfig.t) :=
  match l with
  | [] => [e]
  | x :: r =>
    if Nat.leb (SiteConfig.priority (snd e)) (SiteConfig.priority (snd x))
    then e :: l
    else x :: insertByPriority e r
  end.

Definition sortByPriority (l : list (jsstring * SiteConfig.t))
  : list (jsstring * SiteConfig.t) :=
  fold_right insertByPriority [] l.

Section Orchestrator.

(** The [try] block of one site: it throws an error with a message
    ([inl]) or completes with [allBusinesses] ([inr]). *)
Variable tryCrawl :
  jsstring -> SiteConfig.t -> Trace -> (jsstring + list Listing.t) * Trace.

Definition recordSuccess (config : SiteConfig.t)
           (allBusinesses : list Listing.t) : SiteResult.t :=
  SiteResult.mk true (SiteConfig.listingUrl config) (length allBusinesses)
    allBusinesses None (Some (pagesScraped config allBusinesses)).

Definition recordFailure (config : SiteConfig.t) (message : jsstring)
  : SiteResult.t :=
  SiteResult.mk false (SiteConfig.listingUrl config) 0 [] (Some message) None.

(** One turn of [for (const [websiteName, config] of websiteEntries)]. *)
Definition scrapeSite (st : AggregateResult.t * Trace)
           (entry : jsstring * SiteConfig.t) : AggregateResult.t * Trace :=
  let (results, t) := st in
  let (websiteName, config) := entry in
  let s := AggregateResult.summary results in
  let (outcome, t1) := tryCrawl websiteName config t in
  let results' :=
    match outcome with
    | inr allBusinesses =>
      AggregateResult.mk
        (AggregateResult.success results)
        (AggregateResult.scraped_at results)
        (setProp websiteName (recordSuccess config allBusinesses)
                 (AggregateResult.websites results))
        (Summary.mk
           (Summary.total_businesses s + length allBusinesses)
           (Summary.successful_sites s + 1)
           (Summary.failed_sites s))
    | inl message =>
      AggregateResult.mk
        (AggregateResult.success results)
        (AggregateResult.scraped_at results)
        (setProp websiteName (recordFailure config message)
                 (AggregateResult.websites results))
        (Summary.mk
           (Summary.total_businesses s)
           (Summary.successful_sites s)
           (Summary.failed_sites s + 1))
    end in
  (results', t1 ++ [Sleep 2000]).

Definition emptyResults (now : jsstring) : AggregateResult.t :=
  AggregateResult.mk true now [] (Summary.mk 0 0 0).

(** [scrapeAllWebsites] over a table of sites. *)
Definition scrapeSites (now : jsstring) (sites : list (jsstring * SiteConfig.t))
           (t : Trace) : AggregateResult.t * Trace :=
  fold_left scrapeSite (sortByPriority sites) (emptyResults now, t).

End Orchestrator.

(** The [try] block as the program has it: the page loop.  [scrapePage]
    catches what a fetch throws, so the block completes. *)
Definition tryCrawlSite (net : Net) (now websiteName : jsstring)
           (config : SiteConfig.t) (t : Trace)
  : (jsstring + list Listing.t) * Trace :=
  let (allBusinesses, t') := crawlSite net now websiteName config t in
  (inr allBusinesses, t').

Definition scrapeAllWebsitesOf (sites : list (jsstring * SiteConfig.t))
           (net : Net) (now : jsstring) (t : Trace) : AggregateResult.t * Trace :=
  scrapeSites (tryCrawlSite net now) now sites t.

Definition scrapeAllWebsites (net : Net) (now : jsstring) (t : Trace)
  : AggregateResult.t * Trace :=
  scrapeAllWebsitesOf WEBSITES net now t.

(* ================================================================== *)
(** * deduplicateBusinesses *)
(* ================================================================== *)

(** The class of [/[^a-z0-9åäö\s]/g] before negation. *)
Definition keyKept (c : N) : bool :=
  Char.isLower c || Char.isDigit c
  || (c =? 0xE5)%N || (c =? 0xE4)%N || (c =? 0xF6)%N || Char.isSpace c.

Definition reKeyStrip : regex := Cls (fun c => negb (keyKept c)).

(** [/\s+/g] *)
Definition reBlanks : regex := Plus true (Cls Char.isSpace).

(** [x.toLowerCase().replace(/[^a-z0-9åäö\s]/g, '').replace(/\s+/g, ' ').trim()] *)
Definition normalize (x : jsstring) : jsstring :=
  trim (replaceAll false reBlanks (js " ")
          (replaceAll false reKeyStrip [] (toLowerCase x))).

(** [`${normalizedTitle}_${normalizedLocation}`] *)
Definition dedupKey (business : Listing.t) : jsstring :=
  normalize (Listing.title business) ++ js "_"
  ++ normalize (Listing.location business).

(** The [Map] named [seen], as the list of its entries. *)
Definition mapHas {V} (key : jsstring) (m : list (jsstring * V)) : bool :=
  existsb (fun e => jsstring_eqb (fst e) key) m.

(** The body of [for (const business of businesses)], on the pair of
    [seen] and [deduplicated]. *)
Definition dedupStep (st : list (jsstring * Listing.t) * list Listing.t)
           (business : Listing.t)
  : list (jsstring * Listing.t) * list Listing.t :=
  let (seen, deduplicated) := st in
  let key := dedupKey business in
  if negb (mapHas key seen)
  then (setProp key business seen, deduplicated ++ [business])
  else st.

Definition deduplicateBusinesses (businesses : list Listing.t)
  : list Listing.t :=
  snd (fold_left dedupStep businesses ([], [])).

(* ================================================================== *)
(** * filterByProfitRange *)
(* ================================================================== *)

(** [/([0-9,.]*?)\s*(?:miljoner?|mkr|msek)/gi] *)
Definition reMillions : regex :=
  Seq (Group 1 (Star false (Cls (fun c => Char.isDigit c || isComma c
                                          || isDot c))))
 (Seq (Star true (Cls Char.isSpace))
      (alts [Seq (lit (js "miljone")) (Opt (Chr 114%N));
             lit (js "mkr"); lit (js "msek")])).

(** [/([2-9][0-9]|[1-9][0-9][0-9]+)\s*(?:anställda|employees|personal)/gi] *)
Definition reEmployees : regex :=
  Seq (Group 1
        (Alt (Seq (Cls (Char.between 50 57)) (Cls Char.isDigit))
             (Seq (Cls (Char.between 49 57))
                  (Seq (Cls Char.isDigit) (Plus true (Cls Char.isDigit))))))
 (Seq (Star true (Cls Char.isSpace))
      (alts [lit (js "anställda"); lit (js "employees"); lit (js "personal")])).

(** [/(lönsam|vinst|ebitda|profitable)/gi] *)
Definition reProfitable : regex :=
  Group 1 (alts [lit (js "lönsam"); lit (js "vinst"); lit (js "ebitda");
                 lit (js "profitable")]).

Definition indicators : list regex := [reMillions; reEmployees; reProfitable].

(** A number read by [parseFloat]: [mantissa / 10 ^ scale], exactly.
    The rounding to binary64 is not modelled; it leaves unchanged every
    number of at most fifteen digits, and the order of any number with
    15 and with 100 except within 1e-14 of them. *)
Record Num : Type := mkNum { mantissa : N; scale : nat }.

Fixpoint span {A} (f : A -> bool) (l : list A) : list A * list A :=
  match l with
  | [] => ([], [])
  | x :: r =>
    if f x then let (a, b) := span f r in (x :: a, b) else ([], l)
  end.

Definition digitsValue (ds : jsstring) : N :=
  fold_left (fun acc d => (acc * 10 + (d - 48))%N) ds 0%N.

(** [parseFloat] on a string of digits and dots, which is what the
    argument is after [replace(/[^0-9.]/g, '')]: the longest prefix
    [digits], [digits.digits], [digits.] or [.digits]; [None] is [NaN]. *)
Definition parseFloat (s : jsstring) : option Num :=
  let (ip, r) := span Char.isDigit s in
  let fp := match r with
            | c :: r' => if isDot c then fst (span Char.isDigit r') else []
            | [] => []
            end in
  if isEmpty ip && isEmpty fp then None
  else Some (mkNum (digitsValue (ip ++ fp)) (length fp)).

(** [x >= n] and [x < n] for an integer [n]; false on [NaN]. *)
Definition numGe (x : option Num) (n : N) : bool :=
  match x with
  | Some v => (n * 10 ^ N.of_nat (scale v) <=? mantissa v)%N
  | None => false
  end.

Definition numLt (x : option Num) (n : N) : bool :=
  match x with
  | Some v => (mantissa v <? n * 10 ^ N.of_nat (scale v))%N
  | None => false
  end.

(** [/[^0-9.]/g] *)
Definition reNotNumeric : regex :=
  Cls (fun c => negb (Char.isDigit c || isDot c)).

Definition searchText (business : Listing.t) : jsstring :=
  toLowerCase (Listing.revenue business ++ js " " ++ Listing.profit business
               ++ js " " ++ Listing.description business ++ js " "
               ++ Listing.title business).

Definition hasIndicator (business : Listing.t) : bool :=
  existsb (fun pattern => matches true pattern (searchText business)) indicators.

(** The callback of [businesses.filter]. *)
Definition inProfitRange (business : Listing.t) : bool :=
  if negb (hasIndicator business)
     && negb (jsstring_eqb (Listing.revenue business) (js "Not disclosed"))
  then
    let revenueNumber :=
      parseFloat (replaceAll false reNotNumeric [] (Listing.revenue business)) in
    if numGe revenueNumber 15 && numLt revenueNumber 100 then true
    else hasIndicator business
  else hasIndicator business.

Definition filterByProfitRange (businesses : list Listing.t) : list Listing.t :=
  filter inProfitRange businesses.

(* ================================================================== *)
(** * The route [/scrape] *)
(* ================================================================== *)

Module ResponseSummary.
Record t : Type := mk {
  total_businesses : nat;
  successful_sites : nat;
  failed_sites : nat;
  total_unique_businesses : nat;
  businesses_in_target_range : nat;
  deduplication_removed : nat
}.
End ResponseSummary.

Module ResponsePage.
Record t : Type := mk {
  url : jsstring;
  content : jsstring;
  businesses : list Listing.t
}.
End ResponsePage.

Module Response.
Record t : Type := mk {
  success : bool;
  scraped_at : jsstring;
  summary : ResponseSummary.t;
  websites : list (jsstring * SiteResult.t);
  pages : list ResponsePage.t;
  details : list Listing.t
}.
End Response.

(** What the handler sends: [res.json(response)], or the status 500
    with [{ success: false, error, pages: [], details: [] }]. *)
Inductive Reply : Type :=
| Ok (body : Response.t)
| ServerError (error : jsstring).

(** The loop over [Object.values(results.websites)]; the [businesses] of
    a site is an array in both records, hence truthy. *)
Definition collectBusinesses (websites : list (jsstring * SiteResult.t))
  : list Listing.t :=
  fold_left (fun allBusinesses site =>
               allBusinesses ++ SiteResult.businesses (snd site))
            websites [].

Definition buildResponse (results : AggregateResult.t) : Response.t :=
  let allBusinesses := collectBusinesses (AggregateResult.websites results) in
  let uniqueBusinesses := deduplicateBusinesses allBusinesses in
  let filteredBusinesses := filterByProfitRange uniqueBusinesses in
  let s := AggregateResult.summary results in
  Response.mk true (AggregateResult.scraped_at results)
    (ResponseSummary.mk
       (Summary.total_businesses s) (Summary.successful_sites s)
       (Summary.failed_sites s)
       (length uniqueBusinesses) (length filteredBusinesses)
       (length allBusinesses - length uniqueBusinesses))
    (AggregateResult.websites results)
    [ResponsePage.mk (js "Swedish Business Listings - Combined")
       (js "Aggregated data from major Swedish business-for-sale websites")
       filteredBusinesses]
    filteredBusinesses.

(** The handler over a run that completes with its results ([inr]) or
    throws ([inl]). *)
Definition handleScrape
           (run : Trace -> (jsstring + AggregateResult.t) * Trace) (t : Trace)
  : Reply * Trace :=
  match run t with
  | (inr results, t') => (Ok (buildResponse results), t')
  | (inl message, t') => (ServerError message, t')
  end.

(** [app.get('/scrape', ...)] over [scrapeAllWebsites]. *)
Definition scrapeRoute (net : Net) (now : jsstring) (t : Trace) : Reply * Trace :=
  handleScrape (fun t0 => let (results, t') := scrapeAllWebsites net now t0 in
                          (inr results, t')) t.

(* ================================================================== *)
(** * Vocabulary of the statements *)
(* ================================================================== *)

Definition isGet (e : Event) : bool :=
  match e with Get _ => true | Sleep _ => false end.

Definition attempts (evs : Trace) : nat := length (filter isGet evs).

Fixpoint waits (evs : Trace) : list N :=
  match evs with
  | [] => []
  | Sleep ms :: r => ms :: waits r
  | Get _ :: r => waits r
  end.

Definition totalWait (evs : Trace) : N := fold_right N.add 0%N (waits evs).

Definition eventsSince (t t' : Trace) : Trace := skipn (length t) t'.

Fixpoint sumSuccessCounts (ws : list (jsstring * SiteResult.t)) : nat :=
  match ws with
  | [] => 0
  | (_, r) :: rest =>
    (if SiteResult.success r then SiteResult.count r else 0)
    + sumSuccessCounts rest
  end.

(** What the summary and the [websites] object hold once the entries
    [seen] have been processed. *)
Definition tallied (seen : list (jsstring * SiteConfig.t))
           (results : AggregateResult.t) : Prop :=
  let s := AggregateResult.summary results in
  map fst (AggregateResult.websites results) = map fst seen /\
  Summary.successful_sites s + Summary.failed_sites s = length seen /\
  Summary.total_businesses s
  = sumSuccessCounts (AggregateResult.websites results).

(** [Subseq l1 l2]: [l1] is [l2] with some elements left out, the others
    in their order. *)
Inductive Subseq {A : Type} : list A -> list A -> Prop :=
| Subseq_nil : Subseq [] []
| Subseq_skip x l1 l2 : Subseq l1 l2 -> Subseq l1 (x :: l2)
| Subseq_keep x l1 l2 : Subseq l1 l2 -> Subseq (x :: l1) (x :: l2).

Definition hasKey (key : jsstring) (l : list Listing.t) : bool :=
  existsb (fun b => jsstring_eqb (dedupKey b) key) l.

(** The listings of [l] whose key no listing of [earlier], and no listing
    before them in [l], has. *)
Fixpoint keepNew (earlier l : list Listing.t) : list Listing.t :=
  match l with
  | [] => []
  | b :: r =>
    if hasKey (dedupKey b) earlier then keepNew (earlier ++ [b]) r
    else b :: keepNew (earlier ++ [b]) r
  end.

(** Replacing each maximal run of [f]-characters by [by_]; [inRun] says
    that the character before was one. *)
Fixpoint squeeze (by_ : jsstring) (f : N -> bool) (inRun : bool) (s : jsstring)
  : jsstring :=
  match s with
  | [] => []
  | c :: r =>
    if f c then (if inRun then squeeze by_ f true r
                 else by_ ++ squeeze by_ f true r)
    else c :: squeeze by_ f false r
  end.

(** Punctuation and symbols of Basic Latin and Latin-1, and the General
    Punctuation block without its blanks. *)
Definition isPunctuation (c : N) : bool :=
  Char.between 33 47 c || Char.between 58 64 c || Char.between 91 96 c
  || Char.between 123 126 c || Char.between 0xA1 0xBF c
  || (c =? 0xD7)%N || (c =? 0xF7)%N
  || Char.between 0x2010 0x2027 c || Char.between 0x2030 0x205E c.

(** Strings that differ only by case, punctuation, or runs of blanks:
    the equivalence generated by changing the case of a character, adding
    a punctuation character, replacing a blank by another blank,
    lengthening a run of blanks, and adding a blank at either end. *)
Inductive KeyVariant : jsstring -> jsstring -> Prop :=
| kv_case x c c' y :
    Char.toLower c = Char.toLower c' -> KeyVariant (x ++ c :: y) (x ++ c' :: y)
| kv_punct x p y :
    isPunctuation p = true -> KeyVariant (x ++ y) (x ++ p :: y)
| kv_blank x w w' y :
    Char.isSpace w = true -> Char.isSpace w' = true ->
    KeyVariant (x ++ w :: y) (x ++ w' :: y)
| kv_run x w w' y :
    Char.isSpace w = true -> Char.isSpace w' = true ->
    KeyVariant (x ++ w :: y) (x ++ w :: w' :: y)
| kv_lead w y : Char.isSpace w = true -> KeyVariant y (w :: y)
| kv_trail x w : Char.isSpace w = true -> KeyVariant x (x ++ [w])
| kv_refl x : KeyVariant x x
| kv_sym x y : KeyVariant x y -> KeyVariant y x
| kv_trans x y z : KeyVariant x y -> KeyVariant y z -> KeyVariant x z.

Definition SP : N := 32%N.

Definition keyText (x : jsstring) : jsstring :=
  filter keyKept (toLowerCase x).

Definition tidy (s : jsstring) : jsstring :=
  trim (squeeze [SP] Char.isSpace false s).

(** Whether a run is open after [a], when it was ([inRun]) before. *)
Definition runAfter (f : N -> bool) (inRun : bool) (a : jsstring) : bool :=
  fold_left (fun _ c => f c) a inRun.

(** The key as the statement words it: title and location lowercased,
    restricted to a-z, 0-9, å, ä, ö and blanks, each run of blanks
    replaced by one space, trimmed, and joined by an underscore. *)
Definition statedKey (b : Listing.t) : jsstring :=
  tidy (keyText (Listing.title b)) ++ [95%N]
  ++ tidy (keyText (Listing.location b)).

(** Whether the listing at position [i] of [l] is the first of its key:
    no listing at an earlier position has the key of [b]. *)
Definition firstOfKey (l : list Listing.t) (i : nat) (b : Listing.t) : bool :=
  negb (existsb (fun b' => jsstring_eqb (statedKey b') (statedKey b))
                (firstn i l)).

(** The listings of [l] that are the first of their key, by position. *)
Definition firstPerKey (l : list Listing.t) : list Listing.t :=
  map snd (filter (fun p => firstOfKey l (fst p) (snd p))
                  (combine (seq 0 (length l)) l)).

Definition segmentationInput : jsstring :=
  join [LF] [js "Foo bar"; js "Omsättning 20 mkr företag till salu";
             js "Bar baz"; js "oms 5 mkr bolag"].

Definition isUpperSwedish (c : N) : bool :=
  (c =? 0xC5)%N || (c =? 0xC4)%N || (c =? 0xD6)%N.

Definition isLowerSwedish (c : N) : bool :=
  (c =? 0xE5)%N || (c =? 0xE4)%N || (c =? 0xF6)%N.

Definition HYPHEN : N := 45%N.

(** The set of the statement: word characters, blanks, and the letters
    Å/Ä/Ö in either case. *)
Definition statedTitleKept (c : N) : bool :=
  Char.isWord c || Char.isSpace c || isUpperSwedish c || isLowerSwedish c.

(** The title as the statement describes it: the first line longer than
    10 characters without "http" and without "Omsättning", trimmed and
    restricted to [statedTitleKept]. *)
Definition statedTitle (block : jsstring) : jsstring :=
  match find (fun line => Nat.ltb 10 (length line)
                          && negb (includes line (js "http"))
                          && negb (includes line (js "Omsättning")))
             (splitOn LF block) with
  | Some first => filter statedTitleKept (trim first)
  | None => []
  end.

(** The set of the pattern, the lowercase letters å/ä/ö left aside. *)
Definition patternKept (c : N) : bool :=
  Char.isWord c || Char.isSpace c || isUpperSwedish c || (c =? HYPHEN)%N.

Definition hyphenBlock : jsstring := js "Bageri-cafe i centrum till salu".

Definition plainListing (revenue : jsstring) : Listing.t :=
  Listing.mk (js "Bageri i centrum") (js "Bageri i centrum") (js "Sweden")
    (js "Price on request") revenue (js "Not disclosed") (js "Various")
    (js "Business for Sale") (js "Bageri i centrum...")
    (js "https://www.exitpartner.se/foretag-till-salu/") None
    (js "2024-01-01T00:00:00.000Z") (js "SEK")
    (js "text_pattern_match_refined").

(** Two sites: the first answers its listing page with three blocks, two
    of them with one title, and has no second page; every request to the
    second fails. *)
Definition workingSite : SiteConfig.t :=
  SiteConfig.mk None (js "https://working.example")
    (js "https://working.example/till-salu") (js "?page=") 1 2.

Definition failingSite : SiteConfig.t :=
  SiteConfig.mk None (js "https://failing.example")
    (js "https://failing.example/till-salu") (js "?page=") 2 3.

Definition mockSites : list (jsstring * SiteConfig.t) :=
  [(js "working", workingSite); (js "failing", failingSite)].

Definition workingPage : Document :=
  mkDocument []
    [js "Bageri i Stockholm företag till salu";
     js "Omsättning 5 mkr verksamhet"; js "Restaurang i Malmö centrum";
     js "Omsättning 7 mkr bolag"; js "Restaurang i Malmö centrum"]
    2048.

Definition mockNet (message : jsstring) : Net :=
  fun _ url =>
    if jsstring_eqb url (SiteConfig.listingUrl workingSite)
    then inr workingPage
    else if startsWith url (SiteConfig.listingUrl workingSite)
    then inr (mkDocument [] [] 0)
    else inl message.

(** A page of the first configured site and the listing it yields. *)
Definition exitpartnerConfig : SiteConfig.t :=
  SiteConfig.mk None (js "https://www.exitpartner.se")
    (js "https://www.exitpartner.se/foretag-till-salu/") (js "?page=") 1 8.

Definition samplePage : FetchResult.t :=
  FetchResult.mk true (js "exitpartner")
    (js "https://www.exitpartner.se/foretag-till-salu/") None []
    [js "Bageri i Stockholm till salu"] (Some 512).

Definition sampleListing : Listing.t :=
  listingOf (js "2024-01-01T00:00:00.000Z") samplePage exitpartnerConfig
    (js "Bageri i Stockholm till salu") (js "Bageri i Stockholm till salu").

(** A network on which every request fails. *)
Definition deadNet : Net := fun _ _ => inl (js "connect ECONNREFUSED").

(** A site of three pages whose second page is empty. *)
Definition threePages : SiteConfig.t :=
  SiteConfig.mk None (js "https://objektvision.se")
    (js "https://objektvision.se/till_salu") (js "?page=") 3 3.

Definition onePageNet : Net :=
  fun _ url =>
    if jsstring_eqb url (js "https://objektvision.se/till_salu")
    then inr (mkDocument [] [js "Bageri i Stockholm till salu"] 512)
    else inr (mkDocument [] [] 0).

(** Two listings that differ by the case of the title and by a blank
    after the location. *)
Definition listingAb : Listing.t :=
  Listing.mk (js "Ab") (js "Ab") (js "Malmö") (js "Price on request")
    (js "Not disclosed") (js "Not disclosed") (js "Various")
    (js "Business for Sale") (js "Ab...") (js "https://a.example") None
    (js "2024-01-01T00:00:00.000Z") (js "SEK") (js "text_pattern_match_refined").

Definition listingab : Listing.t :=
  Listing.mk (js "ab") (js "ab") (js "Malmö ") (js "Price on request")
    (js "Not disclosed") (js "Not disclosed") (js "Various")
    (js "Business for Sale") (js "ab...") (js "https://b.example") None
    (js "2024-01-01T00:00:00.000Z") (js "SEK") (js "text_pattern_match_refined").

Definition isPrefixOf {A} (p l : list A) : Prop := exists r, l = p ++ r.

(** What holds of [processedText] and [businesses] between two blocks;
    [Q] says where the blocks come from. *)
Definition extracted (now : jsstring) (raw : FetchResult.t)
           (config : SiteConfig.t) (Q : jsstring -> Prop)
           (st : list jsstring * list Listing.t) : Prop :=
  fst st = map Listing.title (snd st) /\
  NoDup (fst st) /\
  ~ In [] (fst st) /\
  forall b, In b (snd st) ->
    exists block, Q block /\ isBusiness block = true /\
                  b = listingOf now raw config block (extractTitle block).

(** Whether the text starts with one of the three revenue tokens. *)
Definition startsListing (s : jsstring) : bool :=
  match matchAt true reListingStart s with Some _ => true | None => false end.

(** Cutting before every position, the first apart, where [test] holds of
    the text from there on; [cur] is the piece under construction. *)
Fixpoint cutAt (test : jsstring -> bool) (cur s : jsstring) : list jsstring :=
  match s with
  | [] => [cur]
  | c :: s' =>
    if test s && negb (isEmpty cur) then cur :: cutAt test [c] s'
    else cutAt test (cur ++ [c]) s'
  end.

(** No position strictly inside [b] is a cut point, [post] being the
    pieces after [b]. *)
Definition noInnerCut (test : jsstring -> bool) (b : jsstring)
           (post : list jsstring) : Prop :=
  forall y z, b = y ++ z -> y <> [] -> z <> [] ->
              test (z ++ concat post) = false.

(** Pieces each of which starts at a cut point and holds no other. *)
Inductive WellCut (test : jsstring -> bool) : list jsstring -> Prop :=
| WellCut_nil : WellCut test []
| WellCut_cons b post :
    b <> [] -> test (b ++ concat post) = true -> noInnerCut test b post ->
    WellCut test post -> WellCut test (b :: post).

Definition totalPages (entries : list (jsstring * SiteConfig.t)) : nat :=
  list_sum (map (fun e => SiteConfig.maxPages (snd e)) entries).

(** Every entry of [websites] is one the success path wrote. *)
Definition allRecordedOk (ws : list (jsstring * SiteResult.t)) : Prop :=
  forall websiteName r, In (websiteName, r) ws ->
    SiteResult.success r = true /\ SiteResult.error r = None /\
    SiteResult.count r = length (SiteResult.businesses r) /\
    SiteResult.pages_scraped r <> None.

Definition byPriority (a b : jsstring * SiteConfig.t) : Prop :=
  SiteConfig.priority (snd a) <= SiteConfig.priority (snd b).

Definition hasPriority (p : nat) (e : jsstring * SiteConfig.t) : bool :=
  Nat.eqb (SiteConfig.priority (snd e)) p.

(** Every blank is a space, and is followed by no blank. *)
Fixpoint squeezed (s : jsstring) : bool :=
  match s with
  | [] => true
  | c :: r =>
    (if Char.isSpace c
     then (c =? SP)%N
          && match r with [] => true | d :: _ => negb (Char.isSpace d) end
     else true)
    && squeezed r
  end.

Definition headNotBlank (s : jsstring) : Prop :=
  match s with [] => True | d :: _ => Char.isSpace d = false end.

(** The words whose presence in the search text is an indicator. *)
Definition indicatorWords : list jsstring :=
  [js "miljone"; js "mkr"; js "msek";
   js "lönsam"; js "vinst"; js "ebitda"; js "profitable"].

Fixpoint sumListings (ws : list (jsstring * SiteResult.t)) : nat :=
  match ws with
  | [] => 0
  | (_, r) :: rest => length (SiteResult.businesses r) + sumListings rest
  end.

(** A page that offers nothing for sale. *)
Definition contactPage : FetchResult.t :=
  FetchResult.mk true (js "smergers")
    (js "https://www.smergers.com/businesses-for-sale-in-sweden/c415t2b/")
    None [] [js "Kontakta oss"; js "Omsättning och resultat"] (Some 256).

(** A listing without figures that calls itself profitable. *)
Definition profitableListing : Listing.t :=
  Listing.mk (js "Bageri i centrum") (js "Bageri i centrum") (js "Sweden")
    (js "Price on request") (js "Not disclosed") (js "Not disclosed")
    (js "Various") (js "Business for Sale") (js "Bageri i centrum, LÖNSAM...")
    (js "https://www.exitpartner.se/foretag-till-salu/") None
    (js "2024-01-01T00:00:00.000Z") (js "SEK")
    (js "text_pattern_match_refined").

(* ================================================================== *)
(** * Properties *)
(* ================================================================== *)

Lemma jsstring_eqb_eq a b : jsstring_eqb a b = true <-> a = b.
Proof.
  unfold jsstring_eqb. destruct (list_eq_dec N.eq_dec a b); split; congruence.
Qed.

Lemma jsstring_eqb_refl a : jsstring_eqb a a = true.
Proof. apply jsstring_eqb_eq. reflexivity. Qed.

Lemma scrapePage_step net url website retryCount t :
  scrapePage net url website retryCount t =
  match net t url with
  | inr d => (fetched website url d, t ++ [Get url])
  | inl message =>
    if Nat.ltb retryCount 2
    then scrapePage net url website (retryCount + 1)
           (t ++ [Get url; Sleep (2000 * N.of_nat (retryCount + 1))])
    else (failed website url message, t ++ [Get url])
  end.
Proof.
  rewrite scrapePage_equation_1. 
  destruct (net t url) as [message | d]; simpl; [| reflexivity].
  destruct (lt_dec retryCount 2) as [h | h]; simpl.
  - apply Nat.ltb_lt in h. rewrite h. reflexivity.
  - apply Nat.ltb_nlt in h. rewrite h. reflexivity.
Qed.

Lemma eventsSince_app t evs : eventsSince t (t ++ evs) = evs.
Proof.
  unfold eventsSince. induction t as [| e t IH]; simpl; auto.
Qed.

Lemma scrapePage_last net url website message t :
  net t url = inl message ->
  scrapePage net url website 2 t = (failed website url message, t ++ [Get url]).
Proof. intros H. rewrite scrapePage_step, H. reflexivity. Qed.

Lemma scrapePage_fetched net url website retryCount d t :
  net t url = inr d ->
  scrapePage net url website retryCount t = (fetched website url d, t ++ [Get url]).
Proof. intros H. rewrite scrapePage_step, H. reflexivity. Qed.

Lemma scrapePage_retry net url website retryCount message t :
  retryCount < 2 ->
  net t url = inl message ->
  scrapePage net url website retryCount t =
  scrapePage net url website (retryCount + 1)
    (t ++ [Get url; Sleep (2000 * N.of_nat (retryCount + 1))]).
Proof.
  intros Hlt H. rewrite scrapePage_step, H.
  apply Nat.ltb_lt in Hlt. rewrite Hlt. reflexivity.
Qed.

(** What one call adds to the trace: requests of [url] and waits. *)
Lemma scrapePage_events net url website retryCount t :
  exists evs,
    snd (scrapePage net url website retryCount t) = t ++ evs /\
    attempts evs <= S (2 - retryCount) /\
    attempts evs >= 1 /\
    (forall e, In e evs -> e = Get url \/ exists ms, e = Sleep ms).
Proof.
  remember (2 - retryCount) as k eqn:Hk.
  revert retryCount t Hk.
  induction k as [| k IH]; intros retryCount t Hk;
    rewrite scrapePage_step; destruct (net t url) as [message | d].
  - assert (Hlt : Nat.ltb retryCount 2 = false) by (apply Nat.ltb_nlt; lia).
    rewrite Hlt. exists [Get url]. unfold attempts. simpl.
    repeat split; try lia. intros e [<- | []]; auto.
  - exists [Get url]. unfold attempts. simpl.
    repeat split; try lia. intros e [<- | []]; auto.
  - assert (Hlt : Nat.ltb retryCount 2 = true) by (apply Nat.ltb_lt; lia).
    rewrite Hlt.
    destruct (IH (retryCount + 1)
                 (t ++ [Get url; Sleep (2000 * N.of_nat (retryCount + 1))]))
      as (evs & Hs & Ha & Hb & He); [lia |].
    exists ([Get url; Sleep (2000 * N.of_nat (retryCount + 1))] ++ evs).
    rewrite Hs, <- app_assoc. unfold attempts in *. simpl.
    repeat split; try lia.
    intros e [<- | [<- | Hin]]; eauto.
  - exists [Get url]. unfold attempts. simpl.
    repeat split; try lia. intros e [<- | []]; auto.
Qed.

(** C6.  A call of [scrapePage] with the default [retryCount] issues at
    most three requests.  When the three attempts fail, the trace gains
    request, wait of 2000 ms, request, wait of 4000 ms, request: the
    waits total 6000 ms, and the call returns the failure object:
    [success] false, the [website] and [url] of the call, [error] the
    message of the last error, [links] and [text] empty, and no
    [html_length]. *)
Theorem scrapePage_retry_bound net url website t :
  let res := scrapePage net url website 0 t in
  let evs := eventsSince t (snd res) in
  snd res = t ++ evs /\
  attempts evs <= 3 /\
  (forall m1 m2 m3,
     net t url = inl m1 ->
     net (t ++ [Get url; Sleep 2000]) url = inl m2 ->
     net ((t ++ [Get url; Sleep 2000]) ++ [Get url; Sleep 4000]) url = inl m3 ->
     evs = [Get url; Sleep 2000; Get url; Sleep 4000; Get url] /\
     waits evs = [2000; 4000]%N /\
     totalWait evs = 6000%N /\
     FetchResult.success (fst res) = false /\
     FetchResult.website (fst res) = website /\
     FetchResult.url (fst res) = url /\
     FetchResult.error (fst res) = Some m3 /\
     FetchResult.links (fst res) = [] /\
     FetchResult.text (fst res) = [] /\
     FetchResult.html_length (fst res) = None).
Proof.
  intros res evs.
  destruct (scrapePage_events net url website 0 t) as (evs' & Hs & Ha & _ & _).
  fold res in Hs.
  assert (Hevs : evs = evs') by (unfold evs; rewrite Hs; apply eventsSince_app).
  split; [rewrite Hevs; exact Hs |].
  split; [rewrite Hevs; lia |].
  intros m1 m2 m3 H1 H2 H3.
  assert (Hres : res = (failed website url m3,
                        t ++ [Get url; Sleep 2000; Get url; Sleep 4000; Get url])).
  { unfold res.
    rewrite (@scrapePage_retry net url website 0 m1) by (auto; lia).
    simpl. 
    rewrite (@scrapePage_retry net url website 1 m2) by (auto; lia).
    simpl.
    rewrite (@scrapePage_last net url website m3) by auto.
    rewrite <- !app_assoc. reflexivity. }
  assert (Hev : evs = [Get url; Sleep 2000; Get url; Sleep 4000; Get url]).
  { unfold evs. rewrite Hres. simpl. apply eventsSince_app. }
  rewrite Hev, Hres. repeat split; reflexivity.
Qed.


Lemma eventsSince_app2 t a b : eventsSince t ((t ++ a) ++ b) = a ++ b.
Proof. rewrite <- app_assoc. apply eventsSince_app. Qed.

Lemma pageUrl_3_not_1 config : pageUrl config 3 <> pageUrl config 1.
Proof.
  unfold pageUrl. simpl. intros H.
  apply (f_equal (@length N)) in H. rewrite !length_app in H.
  unfold numberToString in H. simpl in H. lia.
Qed.

Lemma pageUrl_3_not_2 config : pageUrl config 3 <> pageUrl config 2.
Proof.
  unfold pageUrl. simpl. intros H.
  apply app_inv_head in H. apply app_inv_head in H. discriminate H.
Qed.

Lemma paginate_stop net now websiteName config pagesLeft page allBusinesses t :
  hasData (fst (scrapePage net (pageUrl config page) websiteName 0 t)) = false ->
  paginate net now websiteName config (S pagesLeft) page allBusinesses t =
  (allBusinesses, snd (scrapePage net (pageUrl config page) websiteName 0 t)).
Proof.
  intros H. simpl.
  destruct (scrapePage net (pageUrl config page) websiteName 0 t) as [r t1].
  simpl in H. rewrite H. reflexivity.
Qed.

Lemma paginate_next net now websiteName config pagesLeft page allBusinesses t :
  hasData (fst (scrapePage net (pageUrl config page) websiteName 0 t)) = true ->
  paginate net now websiteName config (S pagesLeft) page allBusinesses t =
  paginate net now websiteName config pagesLeft (S page)
    (allBusinesses
       ++ findBusinessListings now
            (fst (scrapePage net (pageUrl config page) websiteName 0 t)) config)
    (snd (scrapePage net (pageUrl config page) websiteName 0 t) ++ [Sleep 3000]).
Proof.
  intros H. simpl.
  destruct (scrapePage net (pageUrl config page) websiteName 0 t) as [r t1].
  simpl in H. rewrite H. reflexivity.
Qed.

Lemma hasData_empty r :
  FetchResult.links r = [] -> FetchResult.text r = [] -> hasData r = false.
Proof.
  intros Hl Ht. unfold hasData. rewrite Hl, Ht. simpl.
  apply andb_false_r.
Qed.

Lemma scrapePage_requests net url website retryCount t other :
  other <> url ->
  ~ In (Get other)
       (eventsSince t (snd (scrapePage net url website retryCount t))).
Proof.
  intros Hne Hin.
  destruct (scrapePage_events net url website retryCount t)
    as (evs & Hs & _ & _ & He).
  rewrite Hs, eventsSince_app in Hin.
  destruct (He _ Hin) as [Heq | [ms Heq]]; [| discriminate Heq].
  injection Heq as Heq. contradiction.
Qed.

(** C7.  For a site with [maxPages >= 3]: when the fetch of page 2
    yields no link and no text fragment, the crawl of the site never
    requests page 3.  [r1] and [r2] are the results of the fetches of
    pages 1 and 2 as the loop issues them; page 2 is fetched when page 1
    had data. *)
Theorem pagination_early_stop net now websiteName config t0 r1 t1 r2 t2 :
  3 <= SiteConfig.maxPages config ->
  scrapePage net (pageUrl config 1) websiteName 0 t0 = (r1, t1) ->
  scrapePage net (pageUrl config 2) websiteName 0 (t1 ++ [Sleep 3000]) = (r2, t2) ->
  (hasData r1 = true ->
   FetchResult.links r2 = [] /\ FetchResult.text r2 = []) ->
  ~ In (Get (pageUrl config 3))
       (eventsSince t0 (snd (crawlSite net now websiteName config t0))).
Proof.
  intros Hmax H1 H2 Hempty.
  unfold crawlSite.
  destruct (SiteConfig.maxPages config) as [| [| pagesLeft]] eqn:Hm; try lia.
  pose proof (@scrapePage_requests net (pageUrl config 1) websiteName 0 t0 _
                (pageUrl_3_not_1 config)) as Hp1.
  destruct (hasData r1) eqn:Hd1.
  - rewrite paginate_next by (rewrite H1; exact Hd1).
    rewrite H1. cbn [fst snd].
    destruct (Hempty eq_refl) as [Hl Ht].
    rewrite paginate_stop by (rewrite H2; apply hasData_empty; assumption).
    rewrite H2. cbn [fst snd].
    pose proof (@scrapePage_requests net (pageUrl config 2) websiteName 0
                  (t1 ++ [Sleep 3000]) _ (pageUrl_3_not_2 config)) as Hp2.
    rewrite H2 in Hp2. rewrite H1 in Hp1. cbn [fst snd] in *.
    destruct (scrapePage_events net (pageUrl config 1) websiteName 0 t0)
      as (e1 & Hs1 & _).
    destruct (scrapePage_events net (pageUrl config 2) websiteName 0
                (t1 ++ [Sleep 3000])) as (e2 & Hs2 & _).
    rewrite H1 in Hs1. rewrite H2 in Hs2. cbn [fst snd] in Hs1, Hs2.
    rewrite Hs2 in *. rewrite Hs1 in *.
    rewrite eventsSince_app in Hp1.
    rewrite eventsSince_app in Hp2.
    rewrite <- !app_assoc, eventsSince_app.
    intros Hin. apply in_app_or in Hin. destruct Hin as [Hin | Hin]; [tauto |].
    simpl in Hin. destruct Hin as [Hin | Hin]; [discriminate Hin | tauto].
  - rewrite paginate_stop by (rewrite H1; exact Hd1).
    rewrite H1 in *. exact Hp1.
Qed.


Lemma setProp_fresh V (key : jsstring) (v : V) obj :
  ~ In key (map fst obj) -> setProp key v obj = obj ++ [(key, v)].
Proof.
  induction obj as [| [k w] obj IH]; simpl; intros Hni; [reflexivity |].
  destruct (jsstring_eqb k key) eqn:E.
  - apply jsstring_eqb_eq in E. tauto.
  - rewrite IH by tauto. reflexivity.
Qed.

Lemma getProp_In V (key : jsstring) (obj : list (jsstring * V)) :
  In key (map fst obj) -> exists v, getProp key obj = Some v.
Proof.
  induction obj as [| [k w] obj IH]; simpl; [tauto |].
  intros [Hk | Hin].
  - subst k. rewrite jsstring_eqb_refl. eauto.
  - destruct (jsstring_eqb k key); eauto.
Qed.

Lemma sumSuccessCounts_app ws ws' :
  sumSuccessCounts (ws ++ ws') = sumSuccessCounts ws + sumSuccessCounts ws'.
Proof.
  induction ws as [| [k r] ws IH]; simpl; [reflexivity |]. rewrite IH. lia.
Qed.

Lemma insertByPriority_perm e l : Permutation (insertByPriority e l) (e :: l).
Proof.
  induction l as [| x l IH]; simpl; [apply Permutation_refl |].
  destruct (Nat.leb _ _); [apply Permutation_refl |].
  eapply perm_trans; [apply perm_skip, IH | apply perm_swap].
Qed.

Lemma sortByPriority_perm l : Permutation (sortByPriority l) l.
Proof.
  induction l as [| e l IH]; simpl; [constructor |].
  eapply perm_trans; [apply insertByPriority_perm | apply perm_skip, IH].
Qed.

Section OrchestratorFacts.
Variable tryCrawl :
  jsstring -> SiteConfig.t -> Trace -> (jsstring + list Listing.t) * Trace.

Lemma scrapeSite_tallied seen results t entry :
  tallied seen results ->
  ~ In (fst entry) (map fst seen) ->
  tallied (seen ++ [entry]) (fst (scrapeSite tryCrawl (results, t) entry)).
Proof.
  intros (Hk & Hn & Hs) Hfresh.
  destruct entry as [websiteName config]. unfold scrapeSite.
  destruct (tryCrawl websiteName config t) as [[message | allBusinesses] t1];
    unfold tallied; cbn [fst AggregateResult.summary AggregateResult.websites
                         Summary.successful_sites Summary.failed_sites
                         Summary.total_businesses];
    rewrite setProp_fresh by (rewrite Hk; exact Hfresh);
    rewrite !map_app, !length_app, sumSuccessCounts_app, Hk; simpl;
    repeat split; lia.
Qed.

Lemma fold_scrapeSite_tallied entries seen results t :
  tallied seen results ->
  NoDup (map fst (seen ++ entries)) ->
  tallied (seen ++ entries)
          (fst (fold_left (scrapeSite tryCrawl) entries (results, t))).
Proof.
  revert seen results t.
  induction entries as [| entry entries IH]; intros seen results t Ht Hnd.
  - rewrite app_nil_r. exact Ht.
  - cbn [fold_left].
    assert (Hfresh : ~ In (fst entry) (map fst seen)).
    { rewrite map_app in Hnd. simpl in Hnd.
      apply NoDup_remove_2 in Hnd. intros Hin. apply Hnd.
      apply in_or_app. left. exact Hin. }
    pose proof (@scrapeSite_tallied seen results t entry Ht Hfresh) as Hstep.
    destruct (scrapeSite tryCrawl (results, t) entry) as [results' t'].
    replace (seen ++ entry :: entries) with ((seen ++ [entry]) ++ entries)
      by (rewrite <- app_assoc; reflexivity).
    apply IH; [exact Hstep |].
    rewrite <- app_assoc. exact Hnd.
Qed.

Lemma scrapeSites_tallied now sites t :
  NoDup (map fst sites) ->
  tallied (sortByPriority sites) (fst (scrapeSites tryCrawl now sites t)).
Proof.
  intros Hnd. unfold scrapeSites.
  apply (@fold_scrapeSite_tallied (sortByPriority sites) [] (emptyResults now) t).
  - unfold tallied. simpl. auto.
  - simpl. eapply Permutation_NoDup; [| exact Hnd].
    apply Permutation_map, Permutation_sym, sortByPriority_perm.
Qed.
End OrchestratorFacts.

Lemma WEBSITES_names_distinct : NoDup (map fst WEBSITES).
Proof.
  vm_compute.
  repeat (constructor; [simpl; intuition discriminate |]). constructor.
Qed.

(** C10.  After [scrapeAllWebsites] (the site loop over [WEBSITES],
    whatever the [try] block of a site does): [successful_sites +
    failed_sites] is 4, every configured site has an entry in
    [websites], and [total_businesses] is the sum of [count] over the
    entries recorded with [success = true]. *)
Theorem scrapeAllWebsites_summary
        (tryCrawl : jsstring -> SiteConfig.t -> Trace
                    -> (jsstring + list Listing.t) * Trace)
        (now : jsstring) (t : Trace) :
  let results := fst (scrapeSites tryCrawl now WEBSITES t) in
  let s := AggregateResult.summary results in
  Summary.successful_sites s + Summary.failed_sites s = 4 /\
  (forall websiteName config,
     In (websiteName, config) WEBSITES ->
     exists r, getProp websiteName (AggregateResult.websites results) = Some r) /\
  Summary.total_businesses s
  = sumSuccessCounts (AggregateResult.websites results).
Proof.
  intros results s.
  destruct (@scrapeSites_tallied tryCrawl now WEBSITES t WEBSITES_names_distinct)
    as (Hk & Hn & Hs).
  fold results in Hk, Hn, Hs. fold s in Hn, Hs.
  split; [| split].
  - rewrite Hn. rewrite (Permutation_length (sortByPriority_perm WEBSITES)).
    reflexivity.
  - intros websiteName config Hin. apply getProp_In. rewrite Hk.
    apply (in_map fst) in Hin. cbn [fst] in Hin.
    eapply Permutation_in; [| exact Hin].
    apply Permutation_map, Permutation_sym, sortByPriority_perm.
  - exact Hs.
Qed.


Lemma hasKey_app key l1 l2 : hasKey key (l1 ++ l2) = hasKey key l1 || hasKey key l2.
Proof. apply existsb_app. Qed.

Lemma hasKey_true key l :
  hasKey key l = true <-> exists b, In b l /\ dedupKey b = key.
Proof.
  unfold hasKey. rewrite existsb_exists.
  split; intros (b & Hin & H); exists b; split; auto; apply jsstring_eqb_eq; auto.
Qed.

Lemma hasKey_false key l :
  hasKey key l = false <-> forall b, In b l -> dedupKey b <> key.
Proof.
  split.
  - intros H b Hin Heq.
    assert (hasKey key l = true) by (apply hasKey_true; eauto). congruence.
  - intros H. destruct (hasKey key l) eqn:E; [| reflexivity].
    apply hasKey_true in E. destruct E as (b & Hin & Heq).
    exfalso. eapply H; eauto.
Qed.

Lemma mapHas_cons V k k' (w : V) m :
  mapHas k ((k', w) :: m) = jsstring_eqb k' k || mapHas k m.
Proof. reflexivity. Qed.

Lemma mapHas_setProp V key k (v : V) m :
  mapHas k (setProp key v m) = jsstring_eqb key k || mapHas k m.
Proof.
  induction m as [| [k' w] m IH]; cbn [setProp].
  - rewrite mapHas_cons. reflexivity.
  - destruct (jsstring_eqb k' key) eqn:E; rewrite !mapHas_cons.
    + apply jsstring_eqb_eq in E. subst k'.
      destruct (jsstring_eqb key k); reflexivity.
    + rewrite IH.
      destruct (jsstring_eqb k' k), (jsstring_eqb key k); reflexivity.
Qed.

(** The loop of [deduplicateBusinesses], entered with the listings
    [earlier] already seen. *)
Lemma dedup_loop l : forall earlier seen deduplicated,
  (forall k, mapHas k seen = hasKey k earlier) ->
  snd (fold_left dedupStep l (seen, deduplicated))
  = deduplicated ++ keepNew earlier l.
Proof.
  induction l as [| b r IH]; intros earlier seen deduplicated Hseen.
  - simpl. rewrite app_nil_r. reflexivity.
  - cbn [fold_left keepNew]. unfold dedupStep at 2.
    rewrite Hseen.
    destruct (hasKey (dedupKey b) earlier) eqn:E; cbn [negb].
    + apply IH. intros k. rewrite hasKey_app, Hseen. simpl.
      rewrite orb_false_r.
      destruct (jsstring_eqb (dedupKey b) k) eqn:Ek.
      * apply jsstring_eqb_eq in Ek. subst k. rewrite E. reflexivity.
      * rewrite orb_false_r. reflexivity.
    + rewrite (IH (earlier ++ [b]) (setProp (dedupKey b) b seen) (deduplicated ++ [b])).
      * rewrite <- app_assoc. reflexivity.
      * intros k. rewrite mapHas_setProp, hasKey_app, Hseen. simpl.
        rewrite orb_false_r. apply orb_comm.
Qed.

Lemma deduplicateBusinesses_keepNew l :
  deduplicateBusinesses l = keepNew [] l.
Proof.
  unfold deduplicateBusinesses. rewrite (@dedup_loop l [] [] []); auto.
Qed.

Lemma keepNew_subseq l : forall earlier, Subseq (keepNew earlier l) l.
Proof.
  induction l as [| b r IH]; intros earlier; simpl; [constructor |].
  destruct (hasKey (dedupKey b) earlier); constructor; apply IH.
Qed.

Lemma keepNew_first l : forall earlier b,
  In b (keepNew earlier l) <->
  exists pre post, l = pre ++ b :: post /\
                   hasKey (dedupKey b) (earlier ++ pre) = false.
Proof.
  induction l as [| x r IH]; intros earlier b.
  - simpl. split; [tauto |]. intros (pre & post & H & _).
    destruct pre; discriminate H.
  - cbn [keepNew].
    assert (Htail : In b (keepNew (earlier ++ [x]) r) <->
              exists pre post, x :: r = (x :: pre) ++ b :: post /\
                hasKey (dedupKey b) (earlier ++ x :: pre) = false).
    { rewrite IH. split; intros (pre & post & H & Hk); exists pre, post.
      - rewrite <- app_assoc in Hk. split; [simpl; congruence | exact Hk].
      - rewrite <- app_assoc. split; [simpl in H; congruence | exact Hk]. }
    split.
    + intros Hin.
      destruct (hasKey (dedupKey x) earlier) eqn:E.
      * apply Htail in Hin. destruct Hin as (pre & post & H & Hk).
        exists (x :: pre), post. auto.
      * destruct Hin as [-> | Hin].
        -- exists [], r. rewrite app_nil_r. auto.
        -- apply Htail in Hin. destruct Hin as (pre & post & H & Hk).
           exists (x :: pre), post. auto.
    + intros (pre & post & H & Hk).
      destruct pre as [| y pre].
      * simpl in H. injection H as -> ->. rewrite app_nil_r in Hk.
        rewrite Hk. left. reflexivity.
      * simpl in H. injection H as <- ->.
        assert (Hin : In b (keepNew (earlier ++ [x]) (pre ++ b :: post))).
        { apply Htail. exists pre, post. auto. }
        destruct (hasKey (dedupKey x) earlier); [exact Hin | right; exact Hin].
Qed.

Lemma keepNew_keys l : forall earlier,
  NoDup (map dedupKey (keepNew earlier l)).
Proof.
  induction l as [| x r IH]; intros earlier; simpl; [constructor |].
  destruct (hasKey (dedupKey x) earlier) eqn:E; [apply IH |].
  simpl. constructor; [| apply IH].
  intros Hin. apply in_map_iff in Hin. destruct Hin as (b & Hkey & Hin).
  apply keepNew_first in Hin. destruct Hin as (pre & post & _ & Hk).
  rewrite hasKey_app, hasKey_app in Hk. simpl in Hk.
  rewrite Hkey, jsstring_eqb_refl in Hk. simpl in Hk.
  rewrite orb_true_r in Hk. discriminate Hk.
Qed.


Lemma dropWhile_length A (f : A -> bool) l : length (dropWhile f l) <= length l.
Proof.
  induction l as [| x l IH]; simpl; [lia |].
  destruct (f x); simpl; lia.
Qed.

Lemma matchAt_cls ic f s :
  matchAt ic (Cls f) s =
  match s with
  | c :: s' => if f c then Some (mkMState s' []) else None
  | [] => None
  end.
Proof. reflexivity. Qed.

Lemma replaceFrom_cls ic f : forall fuel s,
  length s < fuel ->
  replaceFrom fuel ic (Cls f) [] s = filter (fun c => negb (f c)) s.
Proof.
  induction fuel as [| fuel IH]; intros s Hlen; [lia |].
  cbn [replaceFrom]. rewrite matchAt_cls.
  destruct s as [| c s']; [reflexivity |].
  simpl in Hlen. cbn [filter].
  destruct (f c); cbn [negb rest].
  - assert (Hlt : Nat.ltb (length s') (length (c :: s')) = true)
      by (apply Nat.ltb_lt; simpl; lia).
    rewrite Hlt. simpl. apply IH. lia.
  - f_equal. apply IH. lia.
Qed.

Lemma replaceAll_cls ic f s :
  replaceAll ic (Cls f) [] s = filter (fun c => negb (f c)) s.
Proof. apply replaceFrom_cls. lia. Qed.

Lemma starLoop_cls ic f : forall n s cs,
  length s < n ->
  starLoop (rmatch ic (Cls f)) true Some n (mkMState s cs)
  = Some (mkMState (dropWhile f s) cs).
Proof.
  induction n as [| n IH]; intros s cs Hlen; [lia |].
  cbn [starLoop rmatch rest caps].
  destruct s as [| c s']; [reflexivity |].
  cbn [dropWhile]. destruct (f c); [| reflexivity].
  assert (Hlt : Nat.ltb (length s') (length (c :: s')) = true)
    by (apply Nat.ltb_lt; simpl; lia).
  rewrite Hlt. simpl in Hlen. rewrite IH by lia. reflexivity.
Qed.

Lemma matchAt_plus_cls ic f s :
  matchAt ic (Plus true (Cls f)) s =
  match s with
  | c :: s' => if f c then Some (mkMState (dropWhile f s') []) else None
  | [] => None
  end.
Proof.
  unfold matchAt, Plus. cbn [rmatch rest caps].
  destruct s as [| c s']; [reflexivity |].
  destruct (f c); [| reflexivity].
  apply (@starLoop_cls ic f). simpl. lia.
Qed.

Lemma squeeze_run by_ f s :
  squeeze by_ f true s = squeeze by_ f false (dropWhile f s).
Proof.
  induction s as [| c r IH]; [reflexivity |].
  cbn [squeeze dropWhile]. destruct (f c) eqn:E; [exact IH |].
  cbn [squeeze]. rewrite E. reflexivity.
Qed.

Lemma replaceFrom_plus_cls ic f by_ : forall fuel s,
  length s < fuel ->
  replaceFrom fuel ic (Plus true (Cls f)) by_ s = squeeze by_ f false s.
Proof.
  induction fuel as [| fuel IH]; intros s Hlen; [lia |].
  cbn [replaceFrom]. rewrite matchAt_plus_cls.
  destruct s as [| c s']; [reflexivity |].
  simpl in Hlen. cbn [squeeze].
  destruct (f c); cbn [rest].
  - pose proof (dropWhile_length f s') as Hd.
    assert (Hlt : Nat.ltb (length (dropWhile f s')) (length (c :: s')) = true)
      by (apply Nat.ltb_lt; simpl; lia).
    rewrite Hlt. rewrite IH by lia. rewrite squeeze_run. reflexivity.
  - f_equal. apply IH. lia.
Qed.

Lemma replaceAll_plus_cls ic f by_ s :
  replaceAll ic (Plus true (Cls f)) by_ s = squeeze by_ f false s.
Proof. apply replaceFrom_plus_cls. lia. Qed.

Ltac decide_units :=
  repeat match goal with
         | |- context [N.leb ?a ?b] => destruct (N.leb_spec a b); try lia
         | |- context [N.eqb ?a ?b] => destruct (N.eqb_spec a b); try lia
         end.

Ltac units_of H :=
  unfold isPunctuation, Char.isSpace, Char.between in H;
  repeat rewrite ?orb_true_iff, ?andb_true_iff, ?N.leb_le, ?N.eqb_eq in H.

Lemma punctuation_lower p :
  isPunctuation p = true -> Char.toLower p = [p].
Proof.
  intros H. units_of H.
  unfold Char.toLower, Char.isUpper, Char.between.
  decide_units; reflexivity.
Qed.

Lemma punctuation_stripped p : isPunctuation p = true -> keyKept p = false.
Proof.
  intros H. units_of H.
  unfold keyKept, Char.isLower, Char.isDigit, Char.isSpace, Char.between.
  decide_units; reflexivity.
Qed.

Lemma blank_lower w : Char.isSpace w = true -> Char.toLower w = [w].
Proof.
  intros H. units_of H.
  unfold Char.toLower, Char.isUpper, Char.between.
  decide_units; reflexivity.
Qed.

Lemma blank_kept w : Char.isSpace w = true -> keyKept w = true.
Proof. intros H. unfold keyKept. rewrite H. apply orb_true_r. Qed.

Lemma normalize_tidy x : normalize x = tidy (keyText x).
Proof.
  unfold normalize, tidy, keyText, reBlanks, reKeyStrip.
  rewrite replaceAll_cls, replaceAll_plus_cls.
  do 2 f_equal. apply filter_ext. intros c. apply negb_involutive.
Qed.

Lemma toLowerCase_app a b : toLowerCase (a ++ b) = toLowerCase a ++ toLowerCase b.
Proof. apply flat_map_app. Qed.

Lemma keyText_app a b : keyText (a ++ b) = keyText a ++ keyText b.
Proof. unfold keyText. rewrite toLowerCase_app. apply filter_app. Qed.

Lemma keyText_unit c y : keyText (c :: y) = filter keyKept (Char.toLower c) ++ keyText y.
Proof. unfold keyText. simpl. apply filter_app. Qed.

Lemma keyText_blank w y :
  Char.isSpace w = true -> keyText (w :: y) = w :: keyText y.
Proof.
  intros H. rewrite keyText_unit, (@blank_lower w H). simpl.
  rewrite (@blank_kept w H). reflexivity.
Qed.

Lemma keyText_punct p y :
  isPunctuation p = true -> keyText (p :: y) = keyText y.
Proof.
  intros H. rewrite keyText_unit, (@punctuation_lower p H). simpl.
  rewrite (@punctuation_stripped p H). reflexivity.
Qed.

Lemma squeeze_app by_ f : forall a inRun b,
  squeeze by_ f inRun (a ++ b)
  = squeeze by_ f inRun a ++ squeeze by_ f (runAfter f inRun a) b.
Proof.
  induction a as [| c a IH]; intros inRun b; [reflexivity |].
  cbn [app squeeze runAfter fold_left].
  destruct (f c); destruct inRun; rewrite IH; unfold runAfter;
    rewrite <- ?app_assoc; reflexivity.
Qed.

Lemma squeeze_blank_in by_ f inRun w y :
  f w = true ->
  squeeze by_ f inRun (w :: y)
  = (if inRun then [] else by_) ++ squeeze by_ f true y.
Proof. intros H. cbn [squeeze]. rewrite H. destruct inRun; reflexivity. Qed.

Lemma squeeze_run2 by_ f inRun w w' y :
  f w = true -> f w' = true ->
  squeeze by_ f inRun (w :: w' :: y) = squeeze by_ f inRun (w :: y).
Proof.
  intros H H'. rewrite !(@squeeze_blank_in by_ f inRun w _ H).
  rewrite (@squeeze_blank_in by_ f true w' _ H'). reflexivity.
Qed.

Lemma squeeze_kind by_ f inRun w w' y :
  f w = true -> f w' = true ->
  squeeze by_ f inRun (w :: y) = squeeze by_ f inRun (w' :: y).
Proof.
  intros H H'. rewrite (@squeeze_blank_in by_ f inRun w _ H).
  rewrite (@squeeze_blank_in by_ f inRun w' _ H'). reflexivity.
Qed.

Lemma SP_blank : Char.isSpace SP = true.
Proof. reflexivity. Qed.

Lemma trimStart_squeeze y :
  trimStart (squeeze [SP] Char.isSpace true y)
  = trimStart (squeeze [SP] Char.isSpace false y).
Proof.
  destruct y as [| c r]; [reflexivity |].
  cbn [squeeze]. destruct (Char.isSpace c); reflexivity.
Qed.

Lemma dropWhile_app A (f : A -> bool) a b :
  dropWhile f (a ++ b)
  = if forallb f a then dropWhile f b else dropWhile f a ++ b.
Proof.
  induction a as [| x a IH]; [reflexivity |].
  cbn [app dropWhile forallb]. destruct (f x); [exact IH | reflexivity].
Qed.

Lemma dropWhile_all A (f : A -> bool) a :
  forallb f a = true -> dropWhile f a = [].
Proof.
  induction a as [| x a IH]; [reflexivity |].
  cbn [dropWhile forallb]. destruct (f x); [exact IH | discriminate].
Qed.

Lemma trimEnd_blank a w :
  Char.isSpace w = true -> trimEnd (a ++ [w]) = trimEnd a.
Proof.
  intros H. unfold trimEnd. rewrite rev_app_distr. cbn [rev app dropWhile].
  rewrite H. reflexivity.
Qed.

Lemma trim_blank_end a w :
  Char.isSpace w = true -> trim (a ++ [w]) = trim a.
Proof.
  intros H. unfold trim, trimStart. rewrite dropWhile_app.
  destruct (forallb Char.isSpace a) eqn:E.
  - rewrite (@dropWhile_all _ _ _ E). cbn [dropWhile]. rewrite H. reflexivity.
  - apply trimEnd_blank. exact H.
Qed.

Lemma tidy_lead w y : Char.isSpace w = true -> tidy (w :: y) = tidy y.
Proof.
  intros H. unfold tidy, trim.
  rewrite (@squeeze_blank_in [SP] Char.isSpace false w y H).
  cbn [app]. unfold trimStart at 1. cbn [dropWhile]. rewrite SP_blank.
  fold (trimStart (squeeze [SP] Char.isSpace true y)).
  rewrite trimStart_squeeze. reflexivity.
Qed.

Lemma tidy_trail x w : Char.isSpace w = true -> tidy (x ++ [w]) = tidy x.
Proof.
  intros H. unfold tidy. rewrite squeeze_app.
  rewrite (@squeeze_blank_in [SP] Char.isSpace _ w [] H). cbn [squeeze].
  rewrite app_nil_r.
  destruct (runAfter Char.isSpace false x).
  - rewrite app_nil_r. reflexivity.
  - apply trim_blank_end. exact SP_blank.
Qed.

Lemma normalize_variant x y : KeyVariant x y -> normalize x = normalize y.
Proof.
  intros H. rewrite !normalize_tidy.
  induction H as [x c c' y Hc | x p y Hp | x w w' y Hw Hw' | x w w' y Hw Hw'
                  | w y Hw | x w Hw | x | x y _ IH | x y z _ IH1 _ IH2].
  - rewrite !keyText_app, !keyText_unit, Hc. reflexivity.
  - rewrite !keyText_app, (@keyText_punct p y Hp). reflexivity.
  - rewrite !keyText_app, (@keyText_blank w y Hw), (@keyText_blank w' y Hw').
    unfold tidy. rewrite !squeeze_app.
    rewrite (@squeeze_kind [SP] Char.isSpace _ w w' (keyText y) Hw Hw'). reflexivity.
  - rewrite !keyText_app, (@keyText_blank w (w' :: y) Hw),
      (@keyText_blank w' y Hw'), (@keyText_blank w y Hw).
    unfold tidy. rewrite !squeeze_app.
    rewrite (@squeeze_run2 [SP] Char.isSpace _ w w' (keyText y) Hw Hw'). reflexivity.
  - rewrite (@keyText_blank w y Hw). symmetry. apply tidy_lead. exact Hw.
  - rewrite keyText_app, (@keyText_blank w [] Hw). symmetry.
    apply tidy_trail. exact Hw.
  - reflexivity.
  - symmetry. exact IH.
  - rewrite IH1. exact IH2.
Qed.

(** C9.  Two listings whose titles and whose locations differ only by
    case, punctuation or runs of blanks have the same deduplication key,
    and [deduplicateBusinesses] keeps the first of the two only. *)
Theorem dedup_key_variants (L1 L2 : Listing.t) :
  KeyVariant (Listing.title L1) (Listing.title L2) ->
  KeyVariant (Listing.location L1) (Listing.location L2) ->
  dedupKey L1 = dedupKey L2 /\ deduplicateBusinesses [L1; L2] = [L1].
Proof.
  intros Ht Hl.
  assert (Hkey : dedupKey L1 = dedupKey L2).
  { unfold dedupKey. rewrite (@normalize_variant _ _ Ht), (@normalize_variant _ _ Hl).
    reflexivity. }
  split; [exact Hkey |].
  rewrite deduplicateBusinesses_keepNew. cbn [keepNew hasKey existsb app].
  rewrite <- Hkey, jsstring_eqb_refl. reflexivity.
Qed.


Lemma dedupKey_stated b : dedupKey b = statedKey b.
Proof.
  unfold dedupKey, statedKey. rewrite !normalize_tidy. reflexivity.
Qed.

Lemma hasKey_stated b l :
  hasKey (dedupKey b) l
  = existsb (fun b' => jsstring_eqb (statedKey b') (statedKey b)) l.
Proof.
  unfold hasKey. induction l as [| x l IH]; [reflexivity |].
  cbn [existsb]. rewrite IH, !dedupKey_stated. reflexivity.
Qed.

(** Positions counted from [k + 1] and tested at their successor. *)
Lemma filter_shift (P : nat * Listing.t -> bool) : forall (r : list Listing.t) k n,
  map snd (filter P (combine (seq (S k) n) r))
  = map snd (filter (fun p => P (S (fst p), snd p)) (combine (seq k n) r)).
Proof.
  induction r as [| b r IH]; intros k n.
  - destruct n; reflexivity.
  - destruct n as [| n]; [reflexivity |].
    cbn [seq combine filter fst snd].
    destruct (P (S k, b)); cbn [map snd]; rewrite IH; reflexivity.
Qed.

Lemma keepNew_by_position l : forall earlier,
  keepNew earlier l
  = map snd (filter (fun p => negb (hasKey (dedupKey (snd p))
                                           (earlier ++ firstn (fst p) l)))
                    (combine (seq 0 (length l)) l)).
Proof.
  induction l as [| x r IH]; intros earlier; [reflexivity |].
  assert (Htail :
    map snd (filter (fun p => negb (hasKey (dedupKey (snd p))
                                      (earlier ++ firstn (fst p) (x :: r))))
                    (combine (seq 1 (length r)) r))
    = keepNew (earlier ++ [x]) r).
  { rewrite filter_shift, IH. f_equal. apply filter_ext. intros p.
    cbn [fst snd firstn]. rewrite <- app_assoc. reflexivity. }
  cbn [keepNew].
  change (combine (seq 0 (length (x :: r))) (x :: r))
    with ((0, x) :: combine (seq 1 (length r)) r).
  cbn [filter]. cbn [fst snd firstn]. rewrite app_nil_r.
  destruct (hasKey (dedupKey x) earlier); cbn [negb map snd];
    rewrite Htail; reflexivity.
Qed.

Lemma deduplicateBusinesses_by_position l :
  deduplicateBusinesses l = firstPerKey l.
Proof.
  rewrite deduplicateBusinesses_keepNew, keepNew_by_position.
  unfold firstPerKey. f_equal. apply filter_ext. intros p.
  unfold firstOfKey. cbn [app]. rewrite hasKey_stated. reflexivity.
Qed.

(** C8.  The output of [deduplicateBusinesses] is the input restricted
    to the positions whose normalized (title, location) key occurs at no
    earlier position, in the order of the input: the first listing
    observed for each key.  So it is a subsequence of the input, holds
    no two listings with one key, and holds exactly the listings that no
    earlier listing of the input shares its key with. *)
Theorem deduplicate_first_seen (businesses : list Listing.t) :
  let out := deduplicateBusinesses businesses in
  out = firstPerKey businesses /\
  Subseq out businesses /\
  NoDup (map dedupKey out) /\
  (forall b, In b out <->
     exists pre post, businesses = pre ++ b :: post /\
       forall b', In b' pre -> dedupKey b' <> dedupKey b).
Proof.
  intros out. unfold out.
  split; [apply deduplicateBusinesses_by_position |].
  rewrite deduplicateBusinesses_keepNew.
  split; [apply keepNew_subseq |].
  split; [apply keepNew_keys |].
  intros b. rewrite keepNew_first. simpl.
  split; intros (pre & post & H & Hk); exists pre, post; split; auto;
    apply hasKey_false; exact Hk.
Qed.


Lemma processBlock_source now raw config st block :
  (forall b, In b (snd st) -> Listing.website_source b = SiteConfig.name config) ->
  forall b, In b (snd (processBlock now raw config st block)) ->
            Listing.website_source b = SiteConfig.name config.
Proof.
  intros Hst b. destruct st as [processedText businesses].
  unfold processBlock.
  destruct (negb (isBusiness block)); [apply Hst |].
  destruct (isEmpty (extractTitle block) || hasString (extractTitle block) processedText);
    [apply Hst |].
  cbn [snd]. intros Hin. apply in_app_or in Hin.
  destruct Hin as [Hin | [<- | []]]; [apply Hst; exact Hin | reflexivity].
Qed.

Lemma findBusinessListings_source now raw config b :
  In b (findBusinessListings now raw config) ->
  Listing.website_source b = SiteConfig.name config.
Proof.
  unfold findBusinessListings.
  generalize (listingBlocks (join [LF] (FetchResult.text raw))) as blocks.
  intros blocks.
  assert (H : forall st,
            (forall b, In b (snd st) ->
                       Listing.website_source b = SiteConfig.name config) ->
            forall b,
              In b (snd (fold_left (processBlock now raw config) blocks st)) ->
              Listing.website_source b = SiteConfig.name config).
  { induction blocks as [| block blocks IH]; intros st Hst; [exact Hst |].
    cbn [fold_left]. apply IH. apply processBlock_source. exact Hst. }
  apply H. simpl. tauto.
Qed.

Lemma WEBSITES_unnamed websiteName config :
  In (websiteName, config) WEBSITES -> SiteConfig.name config = None.
Proof.
  intros H. simpl in H.
  repeat (destruct H as [H | H]; [injection H as _ <-; reflexivity |]).
  contradiction.
Qed.

(** C3.  What the code does where the statement expects the site
    identifier: no entry of [WEBSITES] has a [name], so every listing
    that [findBusinessListings] extracts for a configured site has an
    undefined [website_source], not the identifier of the site. *)
Theorem website_source_undefined now raw websiteName config b :
  In (websiteName, config) WEBSITES ->
  In b (findBusinessListings now raw config) ->
  Listing.website_source b = None /\
  Listing.website_source b <> Some websiteName.
Proof.
  intros Hsite Hin.
  rewrite (@findBusinessListings_source now raw config b Hin).
  rewrite (@WEBSITES_unnamed websiteName config Hsite).
  split; [reflexivity | discriminate].
Qed.

Lemma listingBlocks_segmentationInput :
  listingBlocks segmentationInput =
  [ js "Foo bar" ++ [LF];
    join [LF] [js "Omsättning 20 mkr företag till salu"; js "Bar baz";
               js "oms 5 mkr bolag"] ].
Proof. vm_compute. reflexivity. Qed.

(** C4, amended.  The text of the example is cut into exactly two
    blocks: the first is ["Foo bar\n"] and ends right before
    "Omsättning", the second runs from "Omsättning" to the end of the
    text, "oms 5 mkr bolag" included. *)
Theorem segmentation_example :
  exists b1 b2,
    listingBlocks segmentationInput = [b1; b2] /\
    b1 = js "Foo bar" ++ [LF] /\
    startsWith b2 (js "Omsättning") = true /\
    segmentationInput = b1 ++ b2 /\
    includes b2 (js "oms 5 mkr bolag") = true.
Proof.
  eexists. eexists. split; [apply listingBlocks_segmentationInput |].
  split; [reflexivity |].
  split; [vm_compute; reflexivity |].
  split; vm_compute; reflexivity.
Qed.

(** C4, as stated, fails: there are no two blocks of which the second
    ends right before "oms". *)
Lemma segmentation_no_boundary_at_oms :
  ~ (exists b1 b2 tl,
        listingBlocks segmentationInput = [b1; b2] /\
        segmentationInput = b1 ++ b2 ++ tl /\
        startsWith tl (js "oms") = true).
Proof.
  intros (b1 & b2 & tl & Hb & Hs & Ht).
  rewrite listingBlocks_segmentationInput in Hb. injection Hb as <- <-.
  assert (Hnil : tl = []).
  { apply (f_equal (@length N)) in Hs. rewrite !length_app in Hs.
    vm_compute in Hs. destruct tl; [reflexivity | simpl in Hs; lia]. }
  subst tl. discriminate Ht.
Qed.

Lemma find_filter A (f : A -> bool) l :
  find f l = match filter f l with x :: _ => Some x | [] => None end.
Proof.
  induction l as [| x l IH]; [reflexivity |].
  simpl. destruct (f x); [reflexivity | exact IH].
Qed.

Lemma extractTitle_filter block :
  extractTitle block =
  match find isTitleCandidate (splitOn LF block) with
  | Some first => filter titleKept (trim first)
  | None => []
  end.
Proof.
  unfold extractTitle, titleCandidates. rewrite find_filter.
  destruct (filter isTitleCandidate (splitOn LF block)) as [| first others];
    [reflexivity |].
  unfold reTitleStrip. rewrite replaceAll_cls. apply filter_ext.
  intros c. apply negb_involutive.
Qed.

Lemma titleKept_pattern c :
  isLowerSwedish c = false -> titleKept c = patternKept c.
Proof.
  intros _. unfold titleKept, patternKept, isUpperSwedish, HYPHEN.
  rewrite !orb_assoc. reflexivity.
Qed.

Lemma filter_aside (keep aside : N -> bool) keep' s :
  (forall c, aside c = false -> keep c = keep' c) ->
  filter (fun c => negb (aside c)) (filter keep s)
  = filter (fun c => negb (aside c) && keep' c) s.
Proof.
  intros H. induction s as [| c s IH]; [reflexivity |].
  cbn [filter]. destruct (aside c) eqn:Ea.
  - destruct (keep c); cbn [filter negb andb]; rewrite ?Ea; cbn [negb]; exact IH.
  - rewrite (H c Ea). destruct (keep' c); cbn [filter negb andb];
      rewrite ?Ea; cbn [negb]; rewrite IH; reflexivity.
Qed.

(** C5, amended.  The title is taken from the first line whose trimmed
    length exceeds 10 and that contains neither "http" nor "Omsättning";
    the lowercase letters å/ä/ö left aside, it is that line, trimmed,
    restricted to word characters, blanks, the capitals Å/Ä/Ö and the
    hyphen.  Without such a line the title is empty. *)
Theorem extractTitle_kept (block : jsstring) :
  match find isTitleCandidate (splitOn LF block) with
  | Some first =>
    filter (fun c => negb (isLowerSwedish c)) (extractTitle block)
    = filter (fun c => negb (isLowerSwedish c) && patternKept c) (trim first)
  | None => extractTitle block = []
  end.
Proof.
  rewrite extractTitle_filter.
  destruct (find isTitleCandidate (splitOn LF block)) as [first |];
    [| reflexivity].
  apply filter_aside. exact titleKept_pattern.
Qed.

(** C5, as stated, fails: in this qualifying block the hyphen, which is
    outside the stated set, survives in the title. *)
Lemma extractTitle_keeps_hyphen :
  isBusiness hyphenBlock = true /\
  statedTitleKept HYPHEN = false /\
  In HYPHEN (extractTitle hyphenBlock) /\
  extractTitle hyphenBlock <> statedTitle hyphenBlock.
Proof.
  split; [vm_compute; reflexivity |].
  split; [vm_compute; reflexivity |].
  split.
  - vm_compute. tauto.
  - vm_compute. discriminate.
Qed.

(** The lowercase letters of a title do not survive. *)
Example extractTitle_lowercase :
  extractTitle (js "Företag i Malmö till salu") = js "Fretag i Malm till salu".
Proof. vm_compute. reflexivity. Qed.


Ltac progress_checks :=
  repeat match goal with
         | |- context [Nat.ltb ?a ?b] =>
           replace (Nat.ltb a b) with true by (symmetry; apply Nat.ltb_lt; lia)
         end.

Lemma matches_of_matchAt ic r s : matchAt ic r s <> None -> matches ic r s = true.
Proof.
  intros H. unfold matches.
  destruct s as [| c s']; cbn [search];
    destruct (matchAt ic r _); [reflexivity | contradiction
                               | reflexivity | contradiction].
Qed.

Lemma millions_18 tl :
  matches true reMillions (js "18 mkr" ++ tl) = true.
Proof.
  apply matches_of_matchAt.
  replace (js "18 mkr") with [49; 56; 32; 109; 107; 114]%N
    by (vm_compute; reflexivity).
  unfold matchAt, reMillions. cbn -[Nat.ltb Nat.leb].
  progress_checks. discriminate.
Qed.

Lemma millions_120 tl :
  matches true reMillions (js "120 mkr" ++ tl) = true.
Proof.
  apply matches_of_matchAt.
  replace (js "120 mkr") with [49; 50; 48; 32; 109; 107; 114]%N
    by (vm_compute; reflexivity).
  unfold matchAt, reMillions. cbn -[Nat.ltb Nat.leb].
  progress_checks. discriminate.
Qed.

Lemma searchText_revenue b :
  searchText b =
  toLowerCase (Listing.revenue b)
  ++ toLowerCase (js " " ++ Listing.profit b ++ js " "
                  ++ Listing.description b ++ js " " ++ Listing.title b).
Proof. unfold searchText. apply toLowerCase_app. Qed.

Lemma hasIndicator_millions b :
  matches true reMillions (searchText b) = true -> hasIndicator b = true.
Proof.
  intros H. unfold hasIndicator, indicators. cbn [existsb]. rewrite H.
  reflexivity.
Qed.

Lemma inProfitRange_indicator b : hasIndicator b = true -> inProfitRange b = true.
Proof. intros H. unfold inProfitRange. rewrite H. reflexivity. Qed.

(** C2, amended.  A listing whose revenue is "18 mkr" passes the filter,
    and so does a listing whose revenue is "120 mkr": the revenue is part
    of the search text and "mkr" matches the millions indicator, so the
    range [15, 100) is not consulted. *)
Theorem revenue_in_millions_passes (b : Listing.t) :
  Listing.revenue b = js "18 mkr" \/ Listing.revenue b = js "120 mkr" ->
  hasIndicator b = true /\ filterByProfitRange [b] = [b].
Proof.
  intros H.
  assert (Hi : hasIndicator b = true).
  { apply hasIndicator_millions. rewrite searchText_revenue.
    destruct H as [-> | ->].
    - replace (toLowerCase (js "18 mkr")) with (js "18 mkr")
        by (vm_compute; reflexivity).
      apply millions_18.
    - replace (toLowerCase (js "120 mkr")) with (js "120 mkr")
        by (vm_compute; reflexivity).
      apply millions_120. }
  split; [exact Hi |].
  unfold filterByProfitRange. cbn [filter].
  rewrite (@inProfitRange_indicator b Hi). reflexivity.
Qed.

Lemma revenue_in_millions_passes_witness :
  (Listing.revenue (plainListing (js "120 mkr")) = js "18 mkr"
   \/ Listing.revenue (plainListing (js "120 mkr")) = js "120 mkr") /\
  hasIndicator (plainListing (js "120 mkr")) = true /\
  filterByProfitRange [plainListing (js "120 mkr")]
  = [plainListing (js "120 mkr")].
Proof.
  split; [right; reflexivity |].
  apply (@revenue_in_millions_passes (plainListing (js "120 mkr"))).
  right. reflexivity.
Defined.

(** C2, as stated, fails: this listing has the revenue "120 mkr", no
    profitability keyword and no employee count, and is not excluded. *)
Lemma revenue_120_not_excluded :
  Listing.revenue (plainListing (js "120 mkr")) = js "120 mkr" /\
  matches true reProfitable (searchText (plainListing (js "120 mkr"))) = false /\
  matches true reEmployees (searchText (plainListing (js "120 mkr"))) = false /\
  filterByProfitRange [plainListing (js "120 mkr")] <> [].
Proof.
  split; [reflexivity |].
  split; [vm_compute; reflexivity |].
  split; [vm_compute; reflexivity |].
  vm_compute. discriminate.
Qed.

(** Where no indicator matches, the range decides. *)
Example revenue_in_kronor :
  filterByProfitRange [plainListing (js "18 kr"); plainListing (js "120 kr")]
  = [plainListing (js "18 kr")].
Proof. vm_compute. reflexivity. Qed.


Lemma workingPage_blocks :
  length (listingBlocks (join [LF] (map trim (elements workingPage)))) = 3
  /\ map extractTitle
         (listingBlocks (join [LF] (map trim (elements workingPage))))
     = [js "Bageri i Stockholm fretag till salu";
        js "Restaurang i Malm centrum"; js "Restaurang i Malm centrum"]
  /\ forallb isBusiness
         (listingBlocks (join [LF] (map trim (elements workingPage)))) = true.
Proof. vm_compute. repeat split; reflexivity. Qed.

(** C1, amended.  With the two sites of the scenario, the working site
    is recorded with its 2 listings, and the site whose first page
    cannot be fetched is recorded with [success = true], no error, count
    0 and no listing: [successful_sites] is 2, [failed_sites] is 0 and
    [total_businesses] is 2. *)
Theorem failed_fetch_recorded_as_success (message now : jsstring) (t : Trace) :
  let results := fst (scrapeAllWebsitesOf mockSites (mockNet message) now t) in
  let s := AggregateResult.summary results in
  Summary.successful_sites s = 2 /\
  Summary.failed_sites s = 0 /\
  Summary.total_businesses s = 2 /\
  option_map SiteResult.count
             (getProp (js "working") (AggregateResult.websites results))
  = Some 2 /\
  getProp (js "failing") (AggregateResult.websites results)
  = Some (SiteResult.mk true (SiteConfig.listingUrl failingSite) 0 [] None
                        (Some 0)).
Proof.
  vm_compute. repeat split; reflexivity.
Qed.

(** C1, as stated, fails: the summary of the scenario does not report
    one successful and one failed site. *)
Lemma failed_fetch_not_a_failed_site :
  let results :=
    fst (scrapeAllWebsitesOf mockSites (mockNet (js "timeout of 25000ms exceeded"))
           (js "2024-01-01T00:00:00.000Z") []) in
  let s := AggregateResult.summary results in
  ~ (Summary.successful_sites s = 1 /\
     Summary.failed_sites s = 1 /\
     Summary.total_businesses s = 2 /\
     exists r, getProp (js "failing") (AggregateResult.websites results) = Some r
               /\ SiteResult.success r = false
               /\ (exists e, SiteResult.error r = Some e /\ e <> [])
               /\ SiteResult.businesses r = []).
Proof.
  vm_compute. intros [H _]. discriminate H.
Qed.


Lemma website_source_undefined_witness :
  In (js "exitpartner", exitpartnerConfig) WEBSITES /\
  In sampleListing
     (findBusinessListings (js "2024-01-01T00:00:00.000Z") samplePage
                           exitpartnerConfig) /\
  Listing.website_source sampleListing = None /\
  Listing.website_source sampleListing <> Some (js "exitpartner").
Proof.
  assert (H1 : In (js "exitpartner", exitpartnerConfig) WEBSITES)
    by (left; reflexivity).
  assert (H2 : In sampleListing
                  (findBusinessListings (js "2024-01-01T00:00:00.000Z")
                                        samplePage exitpartnerConfig))
    by (vm_compute; left; reflexivity).
  split; [exact H1 |]. split; [exact H2 |].
  exact (@website_source_undefined _ _ _ _ _ H1 H2).
Defined.

Lemma scrapePage_retry_bound_witness :
  let res := scrapePage deadNet (js "https://objektvision.se/x")
                        (js "objektvision") 0 [] in
  let evs := eventsSince [] (snd res) in
  attempts evs <= 3 /\
  waits evs = [2000; 4000]%N /\
  totalWait evs = 6000%N /\
  FetchResult.success (fst res) = false /\
  FetchResult.error (fst res) = Some (js "connect ECONNREFUSED") /\
  FetchResult.links (fst res) = [] /\
  FetchResult.text (fst res) = [].
Proof.
  intros res evs.
  destruct (@scrapePage_retry_bound deadNet (js "https://objektvision.se/x")
              (js "objektvision") [])
    as (_ & Ha & Hfail).
  destruct (Hfail (js "connect ECONNREFUSED") (js "connect ECONNREFUSED")
                  (js "connect ECONNREFUSED") eq_refl eq_refl eq_refl)
    as (_ & Hw & Ht & Hsucc & _ & _ & Herr & Hlinks & Htext & _).
  split; [exact Ha |]. split; [exact Hw |]. split; [exact Ht |].
  split; [exact Hsucc |]. split; [exact Herr |].
  split; [exact Hlinks | exact Htext].
Defined.

Lemma pagination_early_stop_witness :
  3 <= SiteConfig.maxPages threePages /\
  ~ In (Get (pageUrl threePages 3))
       (eventsSince []
          (snd (crawlSite onePageNet (js "2024-01-01T00:00:00.000Z")
                          (js "objektvision") threePages []))).
Proof.
  split; [simpl; lia |].
  refine (@pagination_early_stop onePageNet (js "2024-01-01T00:00:00.000Z")
            (js "objektvision") threePages []
            (fst (scrapePage onePageNet (pageUrl threePages 1)
                             (js "objektvision") 0 []))
            (snd (scrapePage onePageNet (pageUrl threePages 1)
                             (js "objektvision") 0 []))
            (fst (scrapePage onePageNet (pageUrl threePages 2)
                    (js "objektvision") 0
                    (snd (scrapePage onePageNet (pageUrl threePages 1)
                                     (js "objektvision") 0 []) ++ [Sleep 3000])))
            (snd (scrapePage onePageNet (pageUrl threePages 2)
                    (js "objektvision") 0
                    (snd (scrapePage onePageNet (pageUrl threePages 1)
                                     (js "objektvision") 0 []) ++ [Sleep 3000])))
            _ _ _ _).
  - simpl; lia.
  - vm_compute. reflexivity.
  - vm_compute. reflexivity.
  - intros _. split; vm_compute; reflexivity.
Defined.

Lemma dedup_key_variants_witness :
  KeyVariant (Listing.title listingAb) (Listing.title listingab) /\
  KeyVariant (Listing.location listingAb) (Listing.location listingab) /\
  dedupKey listingAb = dedupKey listingab /\
  deduplicateBusinesses [listingAb; listingab] = [listingAb].
Proof.
  assert (H1 : KeyVariant (Listing.title listingAb) (Listing.title listingab)).
  { change (KeyVariant ([] ++ 65%N :: [98%N]) ([] ++ 97%N :: [98%N])).
    apply kv_case. reflexivity. }
  assert (H2 : KeyVariant (Listing.location listingAb)
                          (Listing.location listingab)).
  { change (KeyVariant (js "Malmö") (js "Malmö" ++ [32%N])).
    apply kv_trail. reflexivity. }
  split; [exact H1 |]. split; [exact H2 |].
  exact (@dedup_key_variants listingAb listingab H1 H2).
Defined.

(** The order of the output is that of the first occurrences, also when
    a listing recurs. *)
Example deduplicate_recurring :
  deduplicateBusinesses [listingAb; sampleListing; listingAb]
  = [listingAb; sampleListing].
Proof. vm_compute. reflexivity. Qed.



Lemma scrapePage_waits_from net url website : forall k retryCount t,
  k = 2 - retryCount ->
  exists evs,
    snd (scrapePage net url website retryCount t) = t ++ evs /\
    attempts evs = S (length (waits evs)) /\
    isPrefixOf (waits evs)
      (map (fun i => (2000 * N.of_nat (i + 1))%N) (seq retryCount k)).
Proof.
  induction k as [| k IH]; intros retryCount t Hk;
    rewrite scrapePage_step; destruct (net t url) as [message | d].
  - assert (Hlt : Nat.ltb retryCount 2 = false) by (apply Nat.ltb_nlt; lia).
    rewrite Hlt. exists [Get url]. cbn. repeat split. exists []. reflexivity.
  - exists [Get url]. cbn. repeat split. exists []. reflexivity.
  - assert (Hlt : Nat.ltb retryCount 2 = true) by (apply Nat.ltb_lt; lia).
    rewrite Hlt.
    destruct (IH (retryCount + 1)
                 (t ++ [Get url; Sleep (2000 * N.of_nat (retryCount + 1))]))
      as (evs & Hs & Ha & r & Hp); [lia |].
    exists ([Get url; Sleep (2000 * N.of_nat (retryCount + 1))] ++ evs).
    rewrite Hs, <- app_assoc. split; [reflexivity |].
    split.
    + unfold attempts in *. cbn [app filter isGet length waits]. lia.
    + exists r. cbn [app waits seq map].
      replace (S retryCount) with (retryCount + 1) by lia.
      rewrite Hp. reflexivity.
  - exists [Get url]. cbn. repeat split.
    eexists. reflexivity.
Qed.

(** X2.  One call of [scrapePage] makes one request more than it waits;
    its waits are none, 2000 ms, or 2000 ms then 4000 ms, so it never
    sleeps more than 6000 ms in all. *)
Theorem scrapePage_backoff net url website t :
  let evs := eventsSince t (snd (scrapePage net url website 0 t)) in
  attempts evs = S (length (waits evs)) /\
  (waits evs = [] \/ waits evs = [2000]%N \/ waits evs = [2000; 4000]%N) /\
  (totalWait evs <= 6000)%N.
Proof.
  intros evs.
  destruct (@scrapePage_waits_from net url website 2 0 t eq_refl)
    as (evs' & Hs & Ha & r & Hp).
  assert (Hevs : evs = evs') by (unfold evs; rewrite Hs; apply eventsSince_app).
  rewrite Hevs. split; [exact Ha |].
  cbn in Hp. unfold totalWait.
  destruct (waits evs') as [| w1 [| w2 [| w3 ws]]]; cbn in Hp |- *.
  - split; [auto | lia].
  - injection Hp as <- _. split; [auto | cbn; lia].
  - injection Hp as <- <- _. split; [auto | cbn; lia].
  - destruct r; discriminate Hp.
Qed.

Lemma dropWhile_idem A (f : A -> bool) l : dropWhile f (dropWhile f l) = dropWhile f l.
Proof.
  induction l as [| x l IH]; [reflexivity |].
  cbn [dropWhile]. destruct (f x) eqn:E; [exact IH |].
  cbn [dropWhile]. rewrite E. reflexivity.
Qed.

Lemma dropWhile_head A (f : A -> bool) l :
  match dropWhile f l with
  | [] => True
  | x :: _ => f x = false
  end.
Proof.
  induction l as [| x l IH]; [exact I |].
  cbn [dropWhile]. destruct (f x) eqn:E; [exact IH | exact E].
Qed.

Lemma dropWhile_fixed A (f : A -> bool) l :
  match l with [] => True | x :: _ => f x = false end -> dropWhile f l = l.
Proof.
  destruct l as [| x l]; [reflexivity |]. intros E. cbn [dropWhile].
  rewrite E. reflexivity.
Qed.

Lemma trimEnd_head s :
  match s with [] => True | x :: _ => Char.isSpace x = false end ->
  match trimEnd s with [] => True | x :: _ => Char.isSpace x = false end.
Proof.
  destruct s as [| x s]; [intros _; exact I |]. intros E.
  unfold trimEnd. cbn [rev]. rewrite dropWhile_app.
  destruct (forallb Char.isSpace (rev s)).
  - cbn [dropWhile]. rewrite E. cbn. exact E.
  - rewrite rev_app_distr. cbn. exact E.
Qed.

Lemma trimEnd_idem s : trimEnd (trimEnd s) = trimEnd s.
Proof.
  unfold trimEnd. rewrite rev_involutive, dropWhile_idem. reflexivity.
Qed.

Lemma trim_head s :
  match trim s with [] => True | x :: _ => Char.isSpace x = false end.
Proof. apply trimEnd_head. apply (dropWhile_head Char.isSpace s). Qed.

Lemma trim_idem s : trim (trim s) = trim s.
Proof.
  unfold trim at 1. unfold trimStart.
  rewrite (dropWhile_fixed Char.isSpace (trim s) (trim_head s)).
  unfold trim. apply trimEnd_idem.
Qed.

Lemma isEmpty_false s : isEmpty s = false <-> s <> [].
Proof. destruct s; cbn; split; congruence. Qed.

Lemma scrapedLinks_In (l : list (option jsstring * jsstring)) txt href :
  In (txt, href) (scrapedLinks l) ->
  txt <> [] /\ href <> [] /\ trim txt = txt /\
  exists raw, In (Some href, raw) l /\ txt = trim raw.
Proof.
  induction l as [| [[h |] raw] l IH]; cbn [scrapedLinks];
    [intros Hin; destruct Hin | |].
  - destruct (isEmpty h) eqn:Eh; cbn [negb andb].
    + intros Hin. destruct (IH Hin) as (H1 & H2 & H3 & raw' & H4 & H5).
      repeat split; auto. exists raw'. split; [right; exact H4 | exact H5].
    + destruct (isEmpty (trim raw)) eqn:Er; cbn [negb].
      * intros Hin. destruct (IH Hin) as (H1 & H2 & H3 & raw' & H4 & H5).
        repeat split; auto. exists raw'. split; [right; exact H4 | exact H5].
      * intros [Heq | Hin].
        -- injection Heq as <- <-.
           split; [apply isEmpty_false; exact Er |].
           split; [apply isEmpty_false; exact Eh |].
           split; [apply trim_idem |].
           exists raw. split; [left; reflexivity | reflexivity].
        -- destruct (IH Hin) as (H1 & H2 & H3 & raw' & H4 & H5).
           repeat split; auto. exists raw'. split; [right; exact H4 | exact H5].
  - intros Hin. destruct (IH Hin) as (H1 & H2 & H3 & raw' & H4 & H5).
    repeat split; auto. exists raw'. split; [right; exact H4 | exact H5].
Qed.

(** X3.  Every link collected from a page has a non-empty [href] and a
    non-empty text; the text is the trimmed text of an anchor of the
    page with that [href], and trimming it again changes nothing. *)
Theorem scrapedLinks_sound (l : list (option jsstring * jsstring)) :
  Forall (fun link =>
            fst link <> [] /\ snd link <> [] /\ trim (fst link) = fst link /\
            exists raw, In (Some (snd link), raw) l /\ fst link = trim raw)
         (scrapedLinks l).
Proof.
  apply Forall_forall. intros [txt href] Hin. cbn [fst snd].
  exact (@scrapedLinks_In l txt href Hin).
Qed.


Lemma chrMatches_refl ic c : chrMatches ic c c = true.
Proof. unfold chrMatches. destruct ic; apply N.eqb_refl. Qed.

Lemma rmatch_lit ic p : forall s cs k,
  startsWith s p = true ->
  rmatch ic (lit p) (mkMState s cs) k = k (mkMState (skipn (length p) s) cs).
Proof.
  induction p as [| c p IH]; intros s cs k H; [reflexivity |].
  destruct s as [| x s]; [discriminate H |].
  cbn [startsWith] in H. apply andb_true_iff in H. destruct H as [Hc Hs].
  apply N.eqb_eq in Hc. subst x.
  destruct p as [| c' p'].
  - cbn. rewrite chrMatches_refl. reflexivity.
  - change (lit (c :: c' :: p')) with (Seq (Chr c) (lit (c' :: p'))).
    cbn [rmatch rest caps]. rewrite chrMatches_refl.
    rewrite (IH s cs k Hs). reflexivity.
Qed.

Lemma rmatch_lit_none p : forall s cs k,
  startsWith s p = false -> rmatch false (lit p) (mkMState s cs) k = None.
Proof.
  induction p as [| c p IH]; intros s cs k H;
    [destruct s; discriminate H |].
  destruct s as [| x s].
  - destruct p; reflexivity.
  - cbn [startsWith] in H. destruct p as [| c' p'].
    + cbn. unfold chrMatches.
      replace (startsWith s []) with true in H by (destruct s; reflexivity).
      rewrite andb_true_r in H. rewrite H. reflexivity.
    + change (lit (c :: c' :: p')) with (Seq (Chr c) (lit (c' :: p'))).
      cbn [rmatch rest caps]. unfold chrMatches.
      destruct (N.eqb c x); [| reflexivity].
      cbn [andb] in H. apply IH. exact H.
Qed.

Lemma search_none_of_matchAt ic r s :
  (forall pre suf, s = pre ++ suf -> matchAt ic r suf = None) ->
  search ic r s = None.
Proof.
  induction s as [| c s IH]; intros H.
  - cbn [search]. rewrite (H [] [] eq_refl). reflexivity.
  - cbn [search]. rewrite (H [] (c :: s) eq_refl).
    apply IH. intros pre suf Heq. apply (H (c :: pre) suf). rewrite Heq.
    reflexivity.
Qed.

Lemma includes_suffix s k :
  includes s k = true <-> exists pre suf, s = pre ++ suf /\ startsWith suf k = true.
Proof.
  induction s as [| c s IH]; cbn [includes].
  - rewrite orb_false_r. split.
    + intros H. exists [], []. auto.
    + intros (pre & suf & Heq & H). symmetry in Heq.
      apply app_eq_nil in Heq. destruct Heq as [_ ->]. exact H.
  - rewrite orb_true_iff, IH. split.
    + intros [H | (pre & suf & Heq & H)].
      * exists [], (c :: s). auto.
      * exists (c :: pre), suf. rewrite Heq. auto.
    + intros (pre & suf & Heq & H). destruct pre as [| x pre].
      * cbn in Heq. subst suf. left. exact H.
      * cbn in Heq. injection Heq as _ ->. right. exists pre, suf. auto.
Qed.

Lemma includes_false_suffix s k pre suf :
  includes s k = false -> s = pre ++ suf -> startsWith suf k = false.
Proof.
  intros H Heq. destruct (startsWith suf k) eqn:E; [| reflexivity].
  assert (includes s k = true) by (apply includes_suffix; eauto). congruence.
Qed.

Lemma search_found ic r s k :
  includes s k = true ->
  (forall suf, startsWith suf k = true -> matchAt ic r suf <> None) ->
  search ic r s <> None.
Proof.
  intros Hin Hm. apply includes_suffix in Hin.
  destruct Hin as (pre & suf & -> & Hs).
  induction pre as [| c pre IH].
  - cbn [app]. pose proof (Hm suf Hs) as Hne.
    destruct suf; cbn [search]; destruct (matchAt ic r _);
      try discriminate; contradiction.
  - cbn [app search]. destruct (matchAt ic r (c :: pre ++ suf));
      [discriminate | exact IH].
Qed.

(** No "http" in the block, no link found. *)
Lemma reLink_needs_http block :
  includes block (js "http") = false -> search false reLink block = None.
Proof.
  intros H. apply search_none_of_matchAt. intros pre suf Heq.
  unfold matchAt, reLink. cbn [rmatch].
  apply rmatch_lit_none. cbn [rest].
  exact (@includes_false_suffix _ _ _ _ H Heq).
Qed.

Lemma hasString_In s set : hasString s set = true <-> In s set.
Proof.
  unfold hasString. rewrite existsb_exists. split.
  - intros (x & Hin & Heq). apply jsstring_eqb_eq in Heq. subst x. exact Hin.
  - intros Hin. exists s. split; [exact Hin | apply jsstring_eqb_refl].
Qed.

Lemma processBlock_extracted now raw config (Q : jsstring -> Prop) st block :
  Q block ->
  extracted now raw config Q st ->
  extracted now raw config Q (processBlock now raw config st block).
Proof.
  intros HQ (Ht & Hnd & Hne & Hfrom). destruct st as [processedText businesses].
  cbn [fst snd] in *. unfold processBlock.
  destruct (isBusiness block) eqn:Eb; cbn [negb];
    [| repeat split; assumption].
  destruct (isEmpty (extractTitle block)) eqn:Ee; cbn [orb];
    [repeat split; assumption |].
  destruct (hasString (extractTitle block) processedText) eqn:Eh;
    [repeat split; assumption |].
  unfold extracted. cbn [fst snd].
  split; [rewrite map_app, Ht; reflexivity |].
  split.
  { apply NoDup_app; [exact Hnd | repeat constructor; intros [] | ].
    intros x Hx [Heq | []]. subst x.
    assert (hasString (extractTitle block) processedText = true)
      by (apply hasString_In; exact Hx).
    congruence. }
  split.
  { intros Hin. apply in_app_or in Hin. destruct Hin as [Hin | [Heq | []]];
      [exact (Hne Hin) |].
    rewrite Heq in Ee. discriminate Ee. }
  intros b Hin. apply in_app_or in Hin. destruct Hin as [Hin | [<- | []]].
  - apply Hfrom. exact Hin.
  - exists block. auto.
Qed.

Lemma fold_processBlock_extracted now raw config (Q : jsstring -> Prop) blocks :
  forall st,
    (forall block, In block blocks -> Q block) ->
    extracted now raw config Q st ->
    extracted now raw config Q
      (fold_left (processBlock now raw config) blocks st).
Proof.
  induction blocks as [| block blocks IH]; intros st HQ Hst; [exact Hst |].
  cbn [fold_left]. apply IH.
  - intros x Hx. apply HQ. right. exact Hx.
  - apply processBlock_extracted; [apply HQ; left; reflexivity | exact Hst].
Qed.

Lemma findBusinessListings_extracted now raw config :
  extracted now raw config
    (fun block => In block (listingBlocks (join [LF] (FetchResult.text raw))))
    (fold_left (processBlock now raw config)
               (listingBlocks (join [LF] (FetchResult.text raw))) ([], [])).
Proof.
  apply fold_processBlock_extracted; [auto |].
  unfold extracted. cbn. repeat split; [constructor | tauto | tauto].
Qed.

(** X4.  The listings extracted from one page have pairwise distinct
    titles, none of them empty, and [company] repeats [title]. *)
Theorem findBusinessListings_titles now raw config :
  let businesses := findBusinessListings now raw config in
  NoDup (map Listing.title businesses) /\
  Forall (fun b => Listing.title b <> [] /\
                   Listing.company b = Listing.title b) businesses.
Proof.
  intros businesses. rewrite Forall_forall.
  destruct (findBusinessListings_extracted now raw config)
    as (Ht & Hnd & Hne & Hfrom).
  unfold businesses, findBusinessListings. rewrite <- Ht.
  split; [exact Hnd |].
  intros b Hin. split.
  - intros He. pose proof (in_map Listing.title _ b Hin) as Hm.
    rewrite <- Ht, He in Hm. exact (Hne Hm).
  - destruct (Hfrom b Hin) as (block & _ & _ & ->). reflexivity.
Qed.

Lemma findBusinessListings_from_block now raw config b :
  In b (findBusinessListings now raw config) ->
  exists block,
    In block (listingBlocks (join [LF] (FetchResult.text raw))) /\
    isBusiness block = true /\
    b = listingOf now raw config block (extractTitle block).
Proof.
  intros Hin.
  destruct (findBusinessListings_extracted now raw config)
    as (_ & _ & _ & Hfrom).
  exact (Hfrom b Hin).
Qed.

(** X5.  Every listing of a page comes from one block of its text that
    holds a business keyword: the title is the title extracted from that
    block, the description is the first 300 units of the block followed
    by "..." (303 units at most), the link is the URL of the page unless
    the block contains "http", and the other fields are the fixed
    literals. *)
Theorem findBusinessListings_provenance now raw config :
  Forall (fun b =>
    exists block,
      In block (listingBlocks (join [LF] (FetchResult.text raw))) /\
      isBusiness block = true /\
      Listing.title b = extractTitle block /\
      Listing.description b = firstn 300 block ++ js "..." /\
      length (Listing.description b) <= 303 /\
      (includes block (js "http") = true \/
       Listing.link b = FetchResult.url raw) /\
      Listing.price b = js "Price on request" /\
      Listing.industry b = js "Various" /\
      Listing.category b = js "Business for Sale" /\
      Listing.currency b = js "SEK" /\
      Listing.extraction_method b = js "text_pattern_match_refined")
    (findBusinessListings now raw config).
Proof.
  apply Forall_forall. intros b Hin.
  destruct (@findBusinessListings_from_block now raw config b Hin)
    as (block & Hb & Hbus & ->).
  exists block. split; [exact Hb |]. split; [exact Hbus |].
  split; [reflexivity |]. split; [reflexivity |].
  split.
  { cbn [listingOf Listing.description]. unfold substring0.
    rewrite length_app. pose proof (firstn_le_length 300 block).
    change (length (js "...")) with 3. lia. }
  split.
  { destruct (includes block (js "http")) eqn:Hno; [left; reflexivity |].
    right. cbn [listingOf Listing.link]. unfold matchedOr.
    rewrite (@reLink_needs_http block Hno). reflexivity. }
  repeat split.
Qed.

Lemma matchAt_look ic a s st :
  matchAt ic (Look a) s = Some st -> rest st = s.
Proof.
  unfold matchAt. cbn [rmatch rest].
  destruct (rmatch ic a (mkMState s []) Some); [| discriminate].
  intros H. injection H as <-. reflexivity.
Qed.

Lemma splitFrom_look ic a : forall fuel cur s,
  length s < fuel ->
  splitFrom fuel ic (Look a) cur s
  = cutAt (fun x => match matchAt ic (Look a) x with
                    | Some _ => true | None => false end) cur s.
Proof.
  induction fuel as [| fuel IH]; intros cur s Hlen; [lia |].
  destruct s as [| c s']; [reflexivity |].
  cbn [splitFrom cutAt]. cbn [length] in Hlen.
  destruct (matchAt ic (Look a) (c :: s')) as [st |] eqn:E.
  - rewrite (@matchAt_look ic a (c :: s') st E), Nat.ltb_irrefl.
    destruct cur as [| x cur]; cbn [isEmpty negb andb]; rewrite IH by lia;
      reflexivity.
  - cbn [andb]. apply IH. lia.
Qed.

Lemma listingBlocks_cutAt s :
  s <> [] -> listingBlocks s = cutAt startsListing [] s.
Proof.
  intros Hs. unfold listingBlocks, splitRe. destruct s as [| c s']; [tauto |].
  unfold reListingStart. rewrite splitFrom_look by lia. reflexivity.
Qed.

Lemma cutAt_spec test : forall s cur,
  exists x post,
    cutAt test cur s = (cur ++ x) :: post /\
    s = x ++ concat post /\
    (forall y z, x = y ++ z -> z <> [] -> cur ++ y <> [] ->
                 test (z ++ concat post) = false) /\
    WellCut test post.
Proof.
  induction s as [| c s' IH]; intros cur.
  - exists [], []. cbn. rewrite app_nil_r. repeat split; [| constructor].
    intros y z H Hz. symmetry in H. apply app_eq_nil in H. tauto.
  - cbn [cutAt].
    destruct (test (c :: s') && negb (isEmpty cur)) eqn:E.
    + apply andb_true_iff in E. destruct E as [Et _].
      destruct (IH [c]) as (x' & post' & Hc & Hs & Hi & Hw).
      exists [], (([c] ++ x') :: post'). rewrite app_nil_r, Hc.
      split; [reflexivity |]. split; [cbn; rewrite Hs; reflexivity |].
      split.
      * intros y z H Hz. symmetry in H. apply app_eq_nil in H. tauto.
      * constructor; [discriminate | cbn; rewrite <- Hs; exact Et | | exact Hw].
        intros y z H Hy Hz. destruct y as [| c' y']; [tauto |].
        cbn in H. injection H as <- H.
        apply (Hi y' z H Hz). discriminate.
    + destruct (IH (cur ++ [c])) as (x' & post' & Hc & Hs & Hi & Hw).
      exists (c :: x'), post'. rewrite Hc, <- app_assoc.
      split; [reflexivity |]. split; [cbn; rewrite Hs; reflexivity |].
      split; [| exact Hw].
      intros y z H Hz Hne. destruct y as [| c' y'].
      * cbn in H. subst z. cbn [app]. rewrite <- Hs.
        rewrite app_nil_r in Hne.
        apply andb_false_iff in E. destruct E as [E | E]; [exact E |].
        destruct cur; [tauto | discriminate E].
      * cbn in H. injection H as <- H. apply (Hi y' z H Hz).
        intros Habs. apply app_eq_nil in Habs. destruct Habs as [Habs _].
        apply app_eq_nil in Habs. destruct Habs as [_ Habs]. discriminate Habs.
Qed.

(** X6.  The blocks of an empty text are the one empty block.  The
    blocks of any other text are non-empty and concatenate to the text;
    every block but the first starts where the text goes on with one of
    the three revenue tokens, and no block holds such a position
    inside. *)
Theorem listingBlocks_cut (allText : jsstring) :
  match allText with
  | [] => listingBlocks allText = [[]]
  | _ :: _ =>
    exists first others,
      listingBlocks allText = first :: others /\
      first <> [] /\
      first ++ concat others = allText /\
      noInnerCut startsListing first others /\
      WellCut startsListing others
  end.
Proof.
  destruct allText as [| c s']; [reflexivity |].
  rewrite (@listingBlocks_cutAt (c :: s')) by discriminate.
  cbn [cutAt isEmpty negb]. rewrite andb_false_r. cbn [app].
  destruct (cutAt_spec startsListing s' [c]) as (x & post & Hc & Hx & Hi & Hw).
  exists ([c] ++ x), post.
  split; [exact Hc |]. split; [discriminate |].
  split; [cbn; rewrite Hx; reflexivity |]. split; [| exact Hw].
  intros y z H Hy Hz. destruct y as [| c' y']; [tauto |].
  cbn in H. injection H as <- H. apply (Hi y' z H Hz). discriminate.
Qed.

Lemma listingBlocks_concat allText : concat (listingBlocks allText) = allText.
Proof.
  destruct allText as [| c s']; [reflexivity |].
  rewrite (@listingBlocks_cutAt (c :: s')) by discriminate.
  destruct (cutAt_spec startsListing (c :: s') []) as (x & post & -> & -> & _).
  reflexivity.
Qed.

Lemma startsWith_app s k c : startsWith s k = true -> startsWith (s ++ c) k = true.
Proof.
  revert k. induction s as [| x s IH]; intros k H.
  - destruct k; [destruct c; reflexivity | discriminate H].
  - destruct k as [| a k]; [reflexivity |]. cbn [app startsWith] in *.
    apply andb_true_iff in H. destruct H as [-> H]. cbn. apply IH. exact H.
Qed.

Lemma includes_within a b c k :
  includes b k = true -> includes (a ++ b ++ c) k = true.
Proof.
  intros H. apply includes_suffix in H. destruct H as (pre & suf & -> & Hs).
  apply includes_suffix. exists (a ++ pre), (suf ++ c).
  split; [rewrite <- !app_assoc; reflexivity | apply startsWith_app; exact Hs].
Qed.

Lemma in_concat_split A (x : list A) l :
  In x l -> exists pre post, concat l = pre ++ x ++ post.
Proof.
  induction l as [| y l IH]; [intros [] |].
  intros [-> | Hin].
  - exists [], (concat l). reflexivity.
  - destruct (IH Hin) as (pre & post & Heq).
    exists (y ++ pre), post. cbn. rewrite Heq, <- app_assoc. reflexivity.
Qed.

Lemma isBusiness_within a b c :
  isBusiness b = true -> isBusiness (a ++ b ++ c) = true.
Proof.
  unfold isBusiness. rewrite !existsb_exists.
  intros (k & Hk & H). exists k. split; [exact Hk |].
  rewrite !toLowerCase_app. apply includes_within. exact H.
Qed.

(** X7.  A page whose text, lowercased, holds none of the five business
    keywords yields no listing. *)
Theorem findBusinessListings_needs_keyword now raw config :
  isBusiness (join [LF] (FetchResult.text raw)) = false ->
  findBusinessListings now raw config = [].
Proof.
  intros Hno.
  destruct (findBusinessListings now raw config) as [| b others] eqn:E;
    [reflexivity |].
  destruct (@findBusinessListings_from_block now raw config b)
    as (block & Hin & Hbus & _); [rewrite E; left; reflexivity |].
  destruct (in_concat_split _ _ Hin) as (pre & post & Heq).
  rewrite listingBlocks_concat in Heq.
  rewrite Heq, (isBusiness_within pre block post Hbus) in Hno.
  discriminate Hno.
Qed.


Lemma attempts_app a b : attempts (a ++ b) = attempts a + attempts b.
Proof. unfold attempts. rewrite filter_app, length_app. reflexivity. Qed.

Lemma paginate_requests net now websiteName config :
  forall pagesLeft page allBusinesses t,
  exists evs,
    snd (paginate net now websiteName config pagesLeft page allBusinesses t)
    = t ++ evs /\
    attempts evs <= 3 * pagesLeft /\
    forall url, In (Get url) evs ->
      exists p, page <= p < page + pagesLeft /\ url = pageUrl config p.
Proof.
  induction pagesLeft as [| pagesLeft IH]; intros page allBusinesses t.
  - exists []. cbn. rewrite app_nil_r. repeat split; [lia | tauto].
  - destruct (scrapePage_events net (pageUrl config page) websiteName 0 t)
      as (e1 & Hs1 & Ha1 & _ & He1).
    assert (Hget : forall url, In (Get url) e1 -> url = pageUrl config page).
    { intros url Hin. destruct (He1 _ Hin) as [Heq | [ms Heq]];
        [injection Heq as ->; reflexivity | discriminate Heq]. }
    destruct (hasData (fst (scrapePage net (pageUrl config page) websiteName 0 t)))
      eqn:Ed.
    + rewrite paginate_next by exact Ed. rewrite Hs1.
      destruct (IH (S page)
                   (allBusinesses ++ findBusinessListings now
                      (fst (scrapePage net (pageUrl config page) websiteName 0 t))
                      config)
                   ((t ++ e1) ++ [Sleep 3000])) as (e2 & Hs2 & Ha2 & He2).
      exists (e1 ++ [Sleep 3000] ++ e2). rewrite Hs2, <- !app_assoc.
      split; [reflexivity |]. split.
      * rewrite !attempts_app. change (attempts [Sleep 3000]) with 0. lia.
      * intros url Hin. apply in_app_or in Hin. destruct Hin as [Hin | Hin].
        -- exists page. split; [lia | exact (Hget url Hin)].
        -- cbn in Hin. destruct Hin as [Hin | Hin]; [discriminate Hin |].
           destruct (He2 url Hin) as (p & Hp & Hu). exists p. split; [lia | exact Hu].
    + rewrite paginate_stop by exact Ed. cbn [snd]. rewrite Hs1.
      exists e1. split; [reflexivity |]. split; [lia |].
      intros url Hin. exists page. split; [lia | exact (Hget url Hin)].
Qed.

(** X8.  The crawl of one site only extends the trace; it requests
    nothing but the page URLs of the site for the pages 1 to
    [maxPages], and makes at most three requests per page. *)
Theorem crawlSite_requests net now websiteName config t :
  let evs := eventsSince t (snd (crawlSite net now websiteName config t)) in
  snd (crawlSite net now websiteName config t) = t ++ evs /\
  attempts evs <= 3 * SiteConfig.maxPages config /\
  forall url, In (Get url) evs ->
    exists page, 1 <= page <= SiteConfig.maxPages config /\
                 url = pageUrl config page.
Proof.
  intros evs. unfold crawlSite in *.
  destruct (paginate_requests net now websiteName config
              (SiteConfig.maxPages config) 1 [] t) as (e & Hs & Ha & He).
  assert (Hevs : evs = e) by (unfold evs; rewrite Hs; apply eventsSince_app).
  rewrite Hevs. split; [exact Hs |]. split; [exact Ha |].
  intros url Hin. destruct (He url Hin) as (p & Hp & Hu).
  exists p. split; [lia | exact Hu].
Qed.

(** X9.  When the fetch of the first page of a site fails, the crawl
    of the site returns no listing and has made at most three
    requests: no other page is tried. *)
Theorem crawlSite_first_page_fails net now websiteName config t :
  FetchResult.success
    (fst (scrapePage net (pageUrl config 1) websiteName 0 t)) = false ->
  fst (crawlSite net now websiteName config t) = [] /\
  attempts (eventsSince t (snd (crawlSite net now websiteName config t))) <= 3.
Proof.
  intros Hf. unfold crawlSite.
  destruct (SiteConfig.maxPages config) as [| pagesLeft].
  - cbn. unfold eventsSince. rewrite skipn_all. cbn. split; [reflexivity | lia].
  - assert (Hd : hasData (fst (scrapePage net (pageUrl config 1) websiteName 0 t))
                 = false).
    { unfold hasData. rewrite Hf. reflexivity. }
    rewrite paginate_stop by exact Hd. cbn [fst snd].
    split; [reflexivity |].
    destruct (scrapePage_events net (pageUrl config 1) websiteName 0 t)
      as (e1 & Hs1 & Ha1 & _). rewrite Hs1, eventsSince_app. exact Ha1.
Qed.

Lemma setProp_In V (key : jsstring) (v : V) obj k w :
  In (k, w) (setProp key v obj) -> (k, w) = (key, v) \/ In (k, w) obj.
Proof.
  induction obj as [| [k' w'] obj IH]; cbn [setProp].
  - intros [H | []]. left. symmetry. exact H.
  - destruct (jsstring_eqb k' key) eqn:E.
    + apply jsstring_eqb_eq in E. subst k'.
      intros [H | H]; [left; symmetry; exact H | right; right; exact H].
    + intros [H | H]; [right; left; exact H |].
      destruct (IH H) as [H' | H']; [left; exact H' | right; right; exact H'].
Qed.

Lemma getProp_Some_In V (key : jsstring) (obj : list (jsstring * V)) v :
  getProp key obj = Some v -> In (key, v) obj.
Proof.
  induction obj as [| [k w] obj IH]; cbn [getProp]; [discriminate |].
  destruct (jsstring_eqb k key) eqn:E.
  - apply jsstring_eqb_eq in E. subst k. intros H. injection H as ->.
    left. reflexivity.
  - intros H. right. apply IH. exact H.
Qed.

Lemma scrapeAllWebsites_loop net now : forall entries results t,
  allRecordedOk (AggregateResult.websites results) ->
  let out := fold_left (scrapeSite (tryCrawlSite net now)) entries (results, t) in
  allRecordedOk (AggregateResult.websites (fst out)) /\
  Summary.failed_sites (AggregateResult.summary (fst out))
  = Summary.failed_sites (AggregateResult.summary results) /\
  Summary.successful_sites (AggregateResult.summary (fst out))
  = Summary.successful_sites (AggregateResult.summary results) + length entries /\
  exists evs, snd out = t ++ evs /\ attempts evs <= 3 * totalPages entries.
Proof.
  induction entries as [| [websiteName config] entries IH];
    intros results t Hok.
  - cbn [fold_left fst snd length]. split; [exact Hok |].
    split; [reflexivity |]. split; [lia |].
    exists []. rewrite app_nil_r. split; [reflexivity | cbn; lia].
  - cbn [fold_left].
    destruct (crawlSite_requests net now websiteName config t)
      as (Hs & Ha & _).
    destruct (crawlSite net now websiteName config t)
      as [allBusinesses t1] eqn:Ec.
    cbn [snd] in Hs, Ha.
    assert (Hstep :
      scrapeSite (tryCrawlSite net now) (results, t) (websiteName, config)
      = @pair AggregateResult.t Trace
         (AggregateResult.mk
           (AggregateResult.success results)
           (AggregateResult.scraped_at results)
           (setProp websiteName (recordSuccess config allBusinesses)
                    (AggregateResult.websites results))
           (Summary.mk
              (Summary.total_businesses (AggregateResult.summary results)
               + length allBusinesses)
              (Summary.successful_sites (AggregateResult.summary results) + 1)
              (Summary.failed_sites (AggregateResult.summary results))))
         (t1 ++ [Sleep 2000])).
    { unfold scrapeSite, tryCrawlSite. rewrite Ec. reflexivity. }
    rewrite Hstep. clear Hstep. cbv zeta.
    match goal with
    | |- context [fold_left _ entries (?r, ?tr)] =>
      destruct (IH r tr) as (Hok' & Hf & Hn & evs & Hev & Hat)
    end.
    { cbn [AggregateResult.websites]. intros k r Hin.
      apply setProp_In in Hin. destruct Hin as [Heq | Hin];
        [| exact (Hok k r Hin)].
      injection Heq as _ ->. cbn. repeat split. discriminate. }
    cbn [AggregateResult.summary Summary.failed_sites
         Summary.successful_sites] in Hf, Hn.
    split; [exact Hok' |]. split; [exact Hf |].
    split; [rewrite Hn; cbn [length]; lia |].
    exists (eventsSince t t1 ++ [Sleep 2000] ++ evs).
    rewrite Hev, Hs, <- !app_assoc, eventsSince_app.
    split; [reflexivity |].
    rewrite !attempts_app. change (attempts [Sleep 2000]) with 0.
    change (totalPages ((websiteName, config) :: entries))
      with (SiteConfig.maxPages config + totalPages entries). lia.
Qed.

(** X10.  Whatever the network does, a run of [scrapeAllWebsites]
    records no failed site: [failed_sites] is 0, [successful_sites] is
    4, and every entry of [websites] has [success = true], no error, and
    a [count] equal to the number of its listings. *)
Theorem scrapeAllWebsites_never_fails net now t :
  let results := fst (scrapeAllWebsites net now t) in
  Summary.failed_sites (AggregateResult.summary results) = 0 /\
  Summary.successful_sites (AggregateResult.summary results) = 4 /\
  forall websiteName r,
    getProp websiteName (AggregateResult.websites results) = Some r ->
    SiteResult.success r = true /\ SiteResult.error r = None /\
    SiteResult.count r = length (SiteResult.businesses r).
Proof.
  intros results.
  destruct (@scrapeAllWebsites_loop net now (sortByPriority WEBSITES)
              (emptyResults now) t) as (Hok & Hf & Hn & _).
  { intros k r []. }
  fold (scrapeSites (tryCrawlSite net now) now WEBSITES t) in Hok, Hf, Hn.
  fold (scrapeAllWebsitesOf WEBSITES net now t) in Hok, Hf, Hn.
  fold (scrapeAllWebsites net now t) in Hok, Hf, Hn. fold results in Hok, Hf, Hn.
  split; [exact Hf |].
  split; [rewrite Hn, (Permutation_length (sortByPriority_perm WEBSITES));
          reflexivity |].
  intros websiteName r Hg. apply getProp_Some_In in Hg.
  destruct (Hok websiteName r Hg) as (H1 & H2 & H3 & _). auto.
Qed.

(** X11.  A run of [scrapeAllWebsites] only extends the trace, and
    makes at most 57 requests: three for each of the 8 + 5 + 3 + 3
    pages of the four sites. *)
Theorem scrapeAllWebsites_requests net now t :
  let evs := eventsSince t (snd (scrapeAllWebsites net now t)) in
  snd (scrapeAllWebsites net now t) = t ++ evs /\ attempts evs <= 57.
Proof.
  intros evs.
  destruct (@scrapeAllWebsites_loop net now (sortByPriority WEBSITES)
              (emptyResults now) t) as (_ & _ & _ & e & Hs & Ha).
  { intros k r []. }
  fold (scrapeSites (tryCrawlSite net now) now WEBSITES t) in Hs.
  fold (scrapeAllWebsitesOf WEBSITES net now t) in Hs.
  fold (scrapeAllWebsites net now t) in Hs.
  assert (Hevs : evs = e) by (unfold evs; rewrite Hs; apply eventsSince_app).
  rewrite Hevs. split; [exact Hs |].
  change (3 * totalPages (sortByPriority WEBSITES)) with 57 in Ha. exact Ha.
Qed.

Lemma insertByPriority_sorted e l :
  StronglySorted byPriority l -> StronglySorted byPriority (insertByPriority e l).
Proof.
  induction l as [| x l IH]; intros Hs; cbn [insertByPriority].
  - constructor; constructor.
  - apply StronglySorted_inv in Hs. destruct Hs as [Hs Hx].
    destruct (Nat.leb (SiteConfig.priority (snd e)) (SiteConfig.priority (snd x)))
      eqn:E.
    + apply Nat.leb_le in E. constructor.
      * constructor; assumption.
      * constructor; [exact E |].
        eapply Forall_impl; [| exact Hx]. unfold byPriority. intros a Ha. lia.
    + apply Nat.leb_gt in E. constructor; [apply IH; exact Hs |].
      eapply Permutation_Forall;
        [apply Permutation_sym, insertByPriority_perm |].
      constructor; [unfold byPriority; lia | exact Hx].
Qed.

Lemma insertByPriority_filter p e l :
  filter (hasPriority p) (insertByPriority e l)
  = filter (hasPriority p) (e :: l).
Proof.
  induction l as [| x l IH]; [reflexivity |].
  cbn [insertByPriority].
  destruct (Nat.leb (SiteConfig.priority (snd e)) (SiteConfig.priority (snd x)))
    eqn:E; [reflexivity |].
  apply Nat.leb_gt in E. cbn [filter] in *. rewrite IH.
  destruct (hasPriority p e) eqn:He; [| reflexivity].
  destruct (hasPriority p x) eqn:Hx; [| reflexivity].
  unfold hasPriority in *. apply Nat.eqb_eq in He. apply Nat.eqb_eq in Hx. lia.
Qed.

(** X12.  The order in which the sites are scraped is a permutation of
    the table, ascending in [priority], and stable: the sites of one
    priority keep the order they have in the table. *)
Theorem sortByPriority_stable (sites : list (jsstring * SiteConfig.t)) :
  Permutation (sortByPriority sites) sites /\
  StronglySorted byPriority (sortByPriority sites) /\
  forall p, filter (hasPriority p) (sortByPriority sites)
            = filter (hasPriority p) sites.
Proof.
  split; [apply sortByPriority_perm |]. split.
  - induction sites as [| e l IH]; [constructor |].
    cbn [sortByPriority fold_right]. apply insertByPriority_sorted. exact IH.
  - intros p. induction sites as [| e l IH]; [reflexivity |].
    cbn [sortByPriority fold_right]. rewrite insertByPriority_filter.
    cbn [filter]. unfold sortByPriority in IH. rewrite IH. reflexivity.
Qed.

(** X13.  [pages_scraped] is 0 for a site without listing, and otherwise
    lies between 1 and the number of listings of the site. *)
Theorem pagesScraped_bounds config (allBusinesses : list Listing.t) :
  (allBusinesses = [] -> pagesScraped config allBusinesses = 0) /\
  (allBusinesses <> [] ->
   1 <= pagesScraped config allBusinesses <= length allBusinesses).
Proof.
  unfold pagesScraped. split.
  - intros ->. reflexivity.
  - intros Hne.
    assert (Hlen : 0 < length allBusinesses)
      by (destruct allBusinesses; [tauto | cbn; lia]).
    apply Nat.ltb_lt in Hlen. rewrite Hlen. apply Nat.ltb_lt in Hlen.
    set (onListing := length (filter _ allBusinesses)).
    assert (Hle : onListing <= length allBusinesses) by apply filter_length_le.
    set (d := if Nat.eqb onListing 0 then 1 else onListing).
    assert (Hd : 1 <= d <= length allBusinesses).
    { unfold d. destruct (Nat.eqb_spec onListing 0); lia. }
    unfold ceilDiv. split.
    + apply Nat.div_le_lower_bound; lia.
    + apply Nat.Div0.div_le_upper_bound. nia.
Qed.

Lemma scrapeSite_trace tryCrawl st entry :
  exists t', snd (scrapeSite tryCrawl st entry) = t' ++ [Sleep 2000].
Proof.
  destruct st as [results t]. destruct entry as [websiteName config].
  unfold scrapeSite. destruct (tryCrawl websiteName config t) as [outcome t1].
  exists t1. reflexivity.
Qed.

Lemma fold_scrapeSite_trace tryCrawl : forall entries st,
  entries <> [] ->
  exists t',
    snd (fold_left (scrapeSite tryCrawl) entries st) = t' ++ [Sleep 2000].
Proof.
  induction entries as [| e entries IH]; intros st Hne; [tauto |].
  cbn [fold_left]. destruct entries as [| e' entries'].
  - cbn [fold_left]. apply scrapeSite_trace.
  - apply IH. discriminate.
Qed.

(** X14.  Over an empty table the site loop leaves the trace as it is;
    over any other table, and whatever the [try] block of a site does,
    the last event of the run is the pause of 2000 ms that follows the
    last site. *)
Theorem scrapeSites_final_pause tryCrawl now sites t :
  match sites with
  | [] => snd (scrapeSites tryCrawl now sites t) = t
  | _ :: _ =>
    exists t', snd (scrapeSites tryCrawl now sites t) = t' ++ [Sleep 2000]
  end.
Proof.
  destruct sites as [| e sites]; [reflexivity |].
  unfold scrapeSites. apply fold_scrapeSite_trace.
  intros Hs.
  pose proof (Permutation_length (sortByPriority_perm (e :: sites))) as Hl.
  rewrite Hs in Hl. discriminate Hl.
Qed.


Lemma keepNew_fresh l : forall earlier,
  NoDup (map dedupKey l) ->
  (forall b, In b l -> hasKey (dedupKey b) earlier = false) ->
  keepNew earlier l = l.
Proof.
  induction l as [| x r IH]; intros earlier Hnd Hfresh; [reflexivity |].
  cbn [keepNew]. rewrite (Hfresh x (or_introl eq_refl)). f_equal.
  cbn [map] in Hnd. apply NoDup_cons_iff in Hnd. destruct Hnd as [Hx Hnd].
  apply IH; [exact Hnd |].
  intros b Hb. rewrite hasKey_app, (Hfresh b (or_intror Hb)).
  unfold hasKey. cbn [existsb orb]. rewrite orb_false_r.
  destruct (jsstring_eqb (dedupKey x) (dedupKey b)) eqn:E; [| reflexivity].
  apply jsstring_eqb_eq in E. exfalso. apply Hx. rewrite E.
  exact (in_map dedupKey r b Hb).
Qed.

Lemma Subseq_length A (l1 l2 : list A) : Subseq l1 l2 -> length l1 <= length l2.
Proof. induction 1; cbn; lia. Qed.

Lemma Subseq_In A (l1 l2 : list A) x : Subseq l1 l2 -> In x l1 -> In x l2.
Proof.
  induction 1; cbn; [tauto | intros H1; right; auto |].
  intros [H1 | H1]; [left; exact H1 | right; auto].
Qed.

(** X15.  Deduplicating a deduplicated list changes nothing; the output
    is never longer than the input, and is empty only for an empty
    input. *)
Theorem deduplicateBusinesses_idempotent (businesses : list Listing.t) :
  deduplicateBusinesses (deduplicateBusinesses businesses)
  = deduplicateBusinesses businesses /\
  length (deduplicateBusinesses businesses) <= length businesses /\
  (businesses <> [] -> deduplicateBusinesses businesses <> []).
Proof.
  rewrite !deduplicateBusinesses_keepNew. split; [| split].
  - apply keepNew_fresh; [apply keepNew_keys | reflexivity].
  - apply Subseq_length, keepNew_subseq.
  - destruct businesses as [| b r]; [tauto |]. intros _. cbn. discriminate.
Qed.

Lemma dropWhile_incl A (f : A -> bool) l x : In x (dropWhile f l) -> In x l.
Proof.
  induction l as [| y l IH]; cbn [dropWhile]; [intros H; exact H |].
  destruct (f y); [intros H; right; auto | intros H; exact H].
Qed.

Lemma trim_incl s c : In c (trim s) -> In c s.
Proof.
  unfold trim, trimEnd, trimStart. intros H.
  apply in_rev in H. apply dropWhile_incl in H. apply in_rev in H.
  apply dropWhile_incl in H. exact H.
Qed.

Lemma squeeze_incl by_ f : forall s inRun c,
  In c (squeeze by_ f inRun s) -> In c by_ \/ (In c s /\ f c = false).
Proof.
  induction s as [| x s IH]; intros inRun c; cbn [squeeze];
    [intros H; destruct H |].
  destruct (f x) eqn:E.
  - destruct inRun.
    + intros H. destruct (IH _ _ H) as [H' | [H' H'']]; [tauto |].
      right. split; [right; exact H' | exact H''].
    + intros H. apply in_app_or in H. destruct H as [H | H]; [tauto |].
      destruct (IH _ _ H) as [H' | [H' H'']]; [tauto |].
      right. split; [right; exact H' | exact H''].
  - intros [<- | H]; [right; split; [left; reflexivity | exact E] |].
    destruct (IH _ _ H) as [H' | [H' H'']]; [tauto |].
    right. split; [right; exact H' | exact H''].
Qed.

Lemma split_at_separator (sep : N) : forall a a' b b',
  ~ In sep a -> ~ In sep a' ->
  a ++ sep :: b = a' ++ sep :: b' -> a = a' /\ b = b'.
Proof.
  induction a as [| x a IH]; intros a' b b' Ha Ha' H.
  - destruct a' as [| y a']; cbn in H.
    + injection H as ->. auto.
    + injection H as <- _. exfalso. apply Ha'. left. reflexivity.
  - destruct a' as [| y a']; cbn in H.
    + injection H as -> _. exfalso. apply Ha. left. reflexivity.
    + injection H as <- H.
      destruct (IH a' b b') as [-> ->]; auto.
      * intros Hin. apply Ha. right. exact Hin.
      * intros Hin. apply Ha'. right. exact Hin.
Qed.

Lemma squeeze_squeezed : forall s inRun,
  squeezed (squeeze [SP] Char.isSpace inRun s) = true /\
  (inRun = true -> headNotBlank (squeeze [SP] Char.isSpace inRun s)).
Proof.
  induction s as [| c r IH]; intros inRun; [cbn; auto |].
  cbn [squeeze]. destruct (Char.isSpace c) eqn:E.
  - destruct inRun.
    + apply IH.
    + destruct (IH true) as [Hs Hh]. specialize (Hh eq_refl).
      split; [| discriminate].
      cbn [app squeezed]. rewrite SP_blank, N.eqb_refl, Hs.
      destruct (squeeze [SP] Char.isSpace true r); [reflexivity |].
      cbn in Hh. rewrite Hh. reflexivity.
  - destruct (IH false) as [Hs _]. split.
    + cbn [squeezed]. rewrite E, Hs. reflexivity.
    + intros _. exact E.
Qed.

Lemma squeezed_fixed : forall s inRun,
  squeezed s = true -> (inRun = true -> headNotBlank s) ->
  squeeze [SP] Char.isSpace inRun s = s.
Proof.
  induction s as [| c r IH]; intros inRun Hs Hh; [reflexivity |].
  cbn [squeeze]. cbn [squeezed] in Hs. destruct (Char.isSpace c) eqn:E.
  - destruct inRun; [specialize (Hh eq_refl); cbn in Hh; congruence |].
    apply andb_true_iff in Hs. destruct Hs as [Hc Hr].
    apply andb_true_iff in Hc. destruct Hc as [Hc Hn].
    apply N.eqb_eq in Hc. subst c. cbn [app]. f_equal.
    apply IH; [exact Hr |]. intros _.
    destruct r; [exact I |]. cbn. apply negb_true_iff. exact Hn.
  - f_equal. apply IH; [exact Hs | discriminate].
Qed.

Lemma squeezed_app a b :
  squeezed (a ++ b) = true -> squeezed a = true /\ squeezed b = true.
Proof.
  induction a as [| c a IH]; [cbn; auto |].
  cbn [app squeezed]. intros H. apply andb_true_iff in H.
  destruct H as [Hc Hr]. destruct (IH Hr) as [Ha Hb].
  split; [| exact Hb]. rewrite Ha, andb_true_r.
  destruct (Char.isSpace c); [| reflexivity].
  apply andb_true_iff in Hc. destruct Hc as [Hc Hn]. rewrite Hc.
  destruct a; [reflexivity | exact Hn].
Qed.

Lemma dropWhile_suffix A (f : A -> bool) l : exists p, l = p ++ dropWhile f l.
Proof.
  induction l as [| x l IH]; [exists []; reflexivity |].
  cbn [dropWhile]. destruct (f x); [| exists []; reflexivity].
  destruct IH as [p Hp]. exists (x :: p). cbn. rewrite <- Hp. reflexivity.
Qed.

Lemma squeezed_trim s : squeezed s = true -> squeezed (trim s) = true.
Proof.
  intros H. unfold trim.
  destruct (dropWhile_suffix Char.isSpace s) as [p Hp].
  fold (trimStart s) in Hp. rewrite Hp in H.
  apply squeezed_app in H. destruct H as [_ H].
  destruct (dropWhile_suffix Char.isSpace (rev (trimStart s))) as [q Hq].
  apply (f_equal (@rev N)) in Hq. rewrite rev_involutive, rev_app_distr in Hq.
  fold (trimEnd (trimStart s)) in Hq. rewrite Hq in H.
  apply squeezed_app in H. tauto.
Qed.

Lemma kept_lower c : keyKept c = true -> Char.toLower c = [c].
Proof.
  intros H. unfold keyKept, Char.isLower, Char.isDigit, Char.isSpace,
    Char.between in H.
  repeat rewrite ?orb_true_iff, ?andb_true_iff, ?N.leb_le, ?N.eqb_eq in H.
  unfold Char.toLower, Char.isUpper, Char.between.
  decide_units; reflexivity.
Qed.

Lemma normalize_kept x c : In c (normalize x) -> keyKept c = true.
Proof.
  rewrite normalize_tidy. unfold tidy. intros H.
  apply trim_incl in H. apply squeeze_incl in H.
  destruct H as [[<- | []] | [H Hs]]; [reflexivity |].
  unfold keyText in H. apply filter_In in H. tauto.
Qed.

Lemma keyText_fixed s :
  (forall c, In c s -> keyKept c = true) -> keyText s = s.
Proof.
  unfold keyText, toLowerCase. induction s as [| c s IH]; intros H;
    [reflexivity |].
  cbn [flat_map]. rewrite (@kept_lower c (H c (or_introl eq_refl))).
  cbn [app filter]. rewrite (H c (or_introl eq_refl)). f_equal.
  apply IH. intros d Hd. apply H. right. exact Hd.
Qed.

(** X18.  Normalizing a normalized string changes nothing. *)
Theorem normalize_idempotent (x : jsstring) :
  normalize (normalize x) = normalize x.
Proof.
  rewrite (normalize_tidy (normalize x)).
  rewrite (@keyText_fixed (normalize x) (@normalize_kept x)).
  rewrite (normalize_tidy x). unfold tidy at 1.
  assert (Hs : squeezed (tidy (keyText x)) = true).
  { unfold tidy. apply squeezed_trim. apply squeeze_squeezed. }
  rewrite (@squeezed_fixed (tidy (keyText x)) false Hs) by discriminate.
  unfold tidy. apply trim_idem.
Qed.

(** X16.  A normalized string holds only the space, the letters a to z,
    the digits and the letters å, ä, ö. *)
Theorem normalize_alphabet (x : jsstring) :
  Forall (fun c => c = SP \/ Char.isLower c = true \/ Char.isDigit c = true
                   \/ c = 0xE5%N \/ c = 0xE4%N \/ c = 0xF6%N)
         (normalize x).
Proof.
  apply Forall_forall. intros c H.
  pose proof (@normalize_kept x c H) as Hk.
  assert (Hs : Char.isSpace c = true -> c = SP).
  { intros Hsp. rewrite normalize_tidy in H. unfold tidy in H.
    apply trim_incl in H. apply squeeze_incl in H.
    destruct H as [[<- | []] | [_ Hn]]; [reflexivity | congruence]. }
  unfold keyKept in Hk. destruct (Char.isSpace c) eqn:E.
  - left. apply Hs. reflexivity.
  - rewrite orb_false_r in Hk.
    rewrite !orb_true_iff, !N.eqb_eq in Hk. tauto.
Qed.

Lemma normalize_no_underscore x : ~ In 95%N (normalize x).
Proof.
  intros H. pose proof (@normalize_kept x 95%N H) as Hk. discriminate Hk.
Qed.

(** X17.  Two listings have the same deduplication key exactly when
    their normalized titles are equal and their normalized locations are
    equal: the underscore that joins the two parts occurs in neither. *)
Theorem dedupKey_components (a b : Listing.t) :
  dedupKey a = dedupKey b <->
  normalize (Listing.title a) = normalize (Listing.title b) /\
  normalize (Listing.location a) = normalize (Listing.location b).
Proof.
  unfold dedupKey. change (js "_") with [95%N]. cbn [app]. split.
  - intros H. apply (@split_at_separator 95%N) in H;
      [exact H | apply normalize_no_underscore | apply normalize_no_underscore].
  - intros [-> ->]. reflexivity.
Qed.

Lemma keepNew_app l1 : forall earlier l2,
  keepNew earlier (l1 ++ l2)
  = keepNew earlier l1 ++ keepNew (earlier ++ l1) l2.
Proof.
  induction l1 as [| x l1 IH]; intros earlier l2.
  - cbn. rewrite app_nil_r. reflexivity.
  - cbn [app keepNew]. rewrite IH, <- app_assoc.
    destruct (hasKey (dedupKey x) earlier); reflexivity.
Qed.

(** X22.  Deduplicating two lists in a row keeps the deduplicated first
    list as it is and adds listings of the second list only, in their
    order: a listing seen earlier is never displaced by a later one. *)
Theorem deduplicateBusinesses_app (first second : list Listing.t) :
  exists added,
    deduplicateBusinesses (first ++ second)
    = deduplicateBusinesses first ++ added /\
    Subseq added second /\
    Forall (fun b => hasKey (dedupKey b) first = false) added.
Proof.
  exists (keepNew first second).
  rewrite !deduplicateBusinesses_keepNew, keepNew_app.
  split; [reflexivity |]. split; [apply keepNew_subseq |].
  apply Forall_forall. intros b Hin. apply keepNew_first in Hin.
  destruct Hin as (pre & post & _ & Hk). rewrite hasKey_app in Hk.
  apply orb_false_iff in Hk. tauto.
Qed.


Lemma startsWith_split s k : startsWith s k = true -> exists tl, s = k ++ tl.
Proof.
  revert s. induction k as [| a k IH]; intros s H; [exists s; reflexivity |].
  destruct s as [| b s]; [discriminate H |].
  cbn [startsWith] in H. apply andb_true_iff in H. destruct H as [Hc Hs].
  apply N.eqb_eq in Hc. subst b. destruct (IH s Hs) as [tl ->].
  exists tl. reflexivity.
Qed.

Lemma reProfitable_at suf kw :
  In kw [js "lönsam"; js "vinst"; js "ebitda"; js "profitable"] ->
  startsWith suf kw = true -> matchAt true reProfitable suf <> None.
Proof.
  intros Hkw Hs. unfold matchAt, reProfitable. cbn [rmatch alts].
  cbn [In] in Hkw.
  repeat match goal with
         | |- match ?m with Some _ => _ | None => _ end <> None =>
           destruct m eqn:?; [discriminate |]
         end.
  destruct Hkw as [<- | [<- | [<- | [<- | []]]]];
    match goal with
    | H : rmatch true (lit ?p) _ _ = None |- _ =>
      match type of Hs with
      | startsWith _ p = true => rewrite (rmatch_lit true p _ _ _ Hs) in H;
                                 discriminate H
      end
    | |- _ => rewrite (rmatch_lit true _ _ _ _ Hs); discriminate
    end.
Qed.

Lemma reMillions_at suf kw :
  In kw [js "miljone"; js "mkr"; js "msek"] ->
  startsWith suf kw = true -> matchAt true reMillions suf <> None.
Proof.
  intros Hkw Hs. destruct (startsWith_split _ _ Hs) as [tl ->].
  cbn [In] in Hkw. destruct Hkw as [<- | [<- | [<- | []]]].
  - replace (js "miljone") with [109; 105; 108; 106; 111; 110; 101]%N
      by (vm_compute; reflexivity).
    unfold matchAt, reMillions. cbn -[Nat.ltb Nat.leb].
    progress_checks.
    destruct tl as [| c tl]; [discriminate |].
    destruct (Char.canonicalize c) as [| q]; [discriminate |].
    destruct (Pos.eqb 82 q); discriminate.
  - replace (js "mkr") with [109; 107; 114]%N by (vm_compute; reflexivity).
    unfold matchAt, reMillions. cbn -[Nat.ltb Nat.leb].
    progress_checks. discriminate.
  - replace (js "msek") with [109; 115; 101; 107]%N by (vm_compute; reflexivity).
    unfold matchAt, reMillions. cbn -[Nat.ltb Nat.leb].
    progress_checks. discriminate.
Qed.

Lemma matches_found ic r s k :
  includes s k = true ->
  (forall suf, startsWith suf k = true -> matchAt ic r suf <> None) ->
  matches ic r s = true.
Proof.
  intros Hin Hm. unfold matches.
  pose proof (@search_found ic r s k Hin Hm) as Hne.
  destruct (search ic r s); [reflexivity | contradiction].
Qed.

(** X19.  A listing whose search text (revenue, profit, description and
    title, lowercased) holds one of the words miljone, mkr, msek,
    lönsam, vinst, ebitda, profitable passes the filter, whatever its
    revenue. *)
Theorem indicator_word_passes (business : Listing.t) (word : jsstring)
        (businesses : list Listing.t) :
  In word indicatorWords ->
  includes (searchText business) word = true ->
  In business businesses ->
  In business (filterByProfitRange businesses).
Proof.
  intros Hw Hin Hb. unfold filterByProfitRange. apply filter_In.
  split; [exact Hb |]. apply inProfitRange_indicator.
  unfold hasIndicator, indicators. cbn [existsb].
  unfold indicatorWords in Hw. cbn [In] in Hw.
  assert (Hcase :
    In word [js "miljone"; js "mkr"; js "msek"] \/
    In word [js "lönsam"; js "vinst"; js "ebitda"; js "profitable"]).
  { cbn [In]. tauto. }
  destruct Hcase as [Hm | Hp].
  - rewrite (@matches_found true reMillions (searchText business) word Hin
               (fun suf => @reMillions_at suf word Hm)).
    reflexivity.
  - rewrite (@matches_found true reProfitable (searchText business) word Hin
               (fun suf => @reProfitable_at suf word Hp)).
    rewrite !orb_true_r. reflexivity.
Qed.


Lemma collect_from ws : forall acc,
  fold_left (fun allBusinesses (site : jsstring * SiteResult.t) =>
               allBusinesses ++ SiteResult.businesses (snd site)) ws acc
  = acc ++ collectBusinesses ws.
Proof.
  unfold collectBusinesses.
  induction ws as [| [k r] ws IH]; intros acc; cbn [fold_left].
  - rewrite app_nil_r. reflexivity.
  - rewrite IH. rewrite (IH ([] ++ _)). cbn [app snd].
    rewrite app_assoc. reflexivity.
Qed.

Lemma collectBusinesses_cons k r ws :
  collectBusinesses ((k, r) :: ws) = SiteResult.businesses r ++ collectBusinesses ws.
Proof. unfold collectBusinesses at 1. cbn [fold_left]. apply collect_from. Qed.

Lemma collectBusinesses_length ws :
  length (collectBusinesses ws) = sumListings ws.
Proof.
  induction ws as [| [k r] ws IH]; [reflexivity |].
  rewrite collectBusinesses_cons, length_app, IH. reflexivity.
Qed.

Lemma collectBusinesses_In ws b :
  In b (collectBusinesses ws) <->
  exists websiteName r, In (websiteName, r) ws /\ In b (SiteResult.businesses r).
Proof.
  induction ws as [| [k r] ws IH].
  - cbn. split; [tauto | intros (? & ? & [] & _)].
  - rewrite collectBusinesses_cons, in_app_iff, IH. split.
    + intros [H | (k' & r' & H1 & H2)].
      * exists k, r. split; [left; reflexivity | exact H].
      * exists k', r'. split; [right; exact H1 | exact H2].
    + intros (k' & r' & [Heq | H1] & H2).
      * injection Heq as -> ->. left. exact H2.
      * right. exists k', r'. auto.
Qed.

Lemma sumListings_ok ws :
  allRecordedOk ws -> sumListings ws = sumSuccessCounts ws.
Proof.
  induction ws as [| [k r] ws IH]; intros Hok; [reflexivity |].
  cbn [sumListings sumSuccessCounts].
  destruct (Hok k r (or_introl eq_refl)) as (Hs & _ & Hc & _).
  rewrite Hs, Hc, IH; [reflexivity |].
  intros k' r' Hin. apply (Hok k' r'). right. exact Hin.
Qed.

Lemma scrapeAllWebsites_recorded net now t :
  let results := fst (scrapeAllWebsites net now t) in
  allRecordedOk (AggregateResult.websites results) /\
  Summary.failed_sites (AggregateResult.summary results) = 0 /\
  Summary.total_businesses (AggregateResult.summary results)
  = sumListings (AggregateResult.websites results).
Proof.
  intros results.
  destruct (@scrapeAllWebsites_loop net now (sortByPriority WEBSITES)
              (emptyResults now) t) as (Hok & Hf & _).
  { intros k r []. }
  destruct (@scrapeSites_tallied (tryCrawlSite net now) now WEBSITES t
              WEBSITES_names_distinct) as (_ & _ & Hs).
  split; [exact Hok |]. split; [exact Hf |].
  unfold results, scrapeAllWebsites, scrapeAllWebsitesOf.
  rewrite Hs. symmetry. apply sumListings_ok. exact Hok.
Qed.

(** X20.  The route answers a run with the success response, in which
    the unique listings and the listings removed as duplicates add up
    to [total_businesses], the listings in the target range are no more
    than the unique ones, no site counts as failed, and the one page of
    [pages] holds the listings of [details], as many as
    [businesses_in_target_range] says. *)
Theorem scrapeRoute_summary net now t :
  exists body,
    fst (scrapeRoute net now t) = Ok body /\
    let s := Response.summary body in
    ResponseSummary.total_unique_businesses s
    + ResponseSummary.deduplication_removed s
    = ResponseSummary.total_businesses s /\
    ResponseSummary.businesses_in_target_range s
    <= ResponseSummary.total_unique_businesses s /\
    ResponseSummary.failed_sites s = 0 /\
    length (Response.details body)
    = ResponseSummary.businesses_in_target_range s /\
    map ResponsePage.businesses (Response.pages body) = [Response.details body].
Proof.
  unfold scrapeRoute, handleScrape.
  destruct (scrapeAllWebsites_recorded net now t) as (_ & Hf & Htot).
  destruct (scrapeAllWebsites net now t) as [results t'].
  cbn [fst] in *. eexists. split; [reflexivity |].
  cbn [buildResponse Response.summary Response.details Response.pages
       ResponseSummary.total_unique_businesses
       ResponseSummary.deduplication_removed
       ResponseSummary.total_businesses
       ResponseSummary.businesses_in_target_range
       ResponseSummary.failed_sites map ResponsePage.businesses].
  assert (Hle : length (deduplicateBusinesses
                          (collectBusinesses (AggregateResult.websites results)))
                <= length (collectBusinesses (AggregateResult.websites results))).
  { rewrite deduplicateBusinesses_keepNew.
    apply Subseq_length, keepNew_subseq. }
  rewrite Htot, <- collectBusinesses_length.
  split; [lia |]. split; [apply filter_length_le |].
  split; [exact Hf |]. split; reflexivity.
Qed.

(** X21.  Every listing of [details] passes the filter and is a listing
    of one of the sites of [websites]. *)
Theorem scrapeRoute_details net now t :
  exists body,
    fst (scrapeRoute net now t) = Ok body /\
    Forall (fun b =>
              inProfitRange b = true /\
              exists websiteName r,
                In (websiteName, r) (Response.websites body) /\
                In b (SiteResult.businesses r))
           (Response.details body).
Proof.
  unfold scrapeRoute, handleScrape.
  destruct (scrapeAllWebsites net now t) as [results t'].
  cbn [fst]. eexists. split; [reflexivity |].
  cbn [buildResponse Response.details Response.websites].
  apply Forall_forall. intros b.
  unfold filterByProfitRange. rewrite filter_In. intros [Hin Hp].
  split; [exact Hp |].
  apply collectBusinesses_In.
  rewrite deduplicateBusinesses_keepNew in Hin.
  exact (@Subseq_In _ _ _ b (keepNew_subseq _ _) Hin).
Qed.


Lemma findBusinessListings_needs_keyword_witness :
  isBusiness (join [LF] (FetchResult.text contactPage)) = false /\
  findBusinessListings (js "2024-01-01T00:00:00.000Z") contactPage
                       exitpartnerConfig = [].
Proof.
  assert (H : isBusiness (join [LF] (FetchResult.text contactPage)) = false)
    by (vm_compute; reflexivity).
  split; [exact H |].
  exact (@findBusinessListings_needs_keyword
           (js "2024-01-01T00:00:00.000Z") contactPage exitpartnerConfig H).
Defined.

Lemma crawlSite_first_page_fails_witness :
  FetchResult.success
    (fst (scrapePage deadNet (pageUrl threePages 1) (js "objektvision") 0 []))
  = false /\
  fst (crawlSite deadNet (js "2024-01-01T00:00:00.000Z") (js "objektvision")
                 threePages []) = [] /\
  attempts (eventsSince []
              (snd (crawlSite deadNet (js "2024-01-01T00:00:00.000Z")
                              (js "objektvision") threePages []))) <= 3.
Proof.
  assert (H : FetchResult.success
                (fst (scrapePage deadNet (pageUrl threePages 1)
                                 (js "objektvision") 0 [])) = false)
    by (vm_compute; reflexivity).
  split; [exact H |].
  exact (@crawlSite_first_page_fails deadNet (js "2024-01-01T00:00:00.000Z")
           (js "objektvision") threePages [] H).
Defined.

Lemma indicator_word_passes_witness :
  In (js "lönsam") indicatorWords /\
  includes (searchText profitableListing) (js "lönsam") = true /\
  In profitableListing [plainListing (js "120 kr"); profitableListing] /\
  In profitableListing
     (filterByProfitRange [plainListing (js "120 kr"); profitableListing]).
Proof.
  assert (H1 : In (js "lönsam") indicatorWords)
    by (right; right; right; left; reflexivity).
  assert (H2 : includes (searchText profitableListing) (js "lönsam") = true)
    by (vm_compute; reflexivity).
  assert (H3 : In profitableListing
                  [plainListing (js "120 kr"); profitableListing])
    by (right; left; reflexivity).
  split; [exact H1 |]. split; [exact H2 |]. split; [exact H3 |].
  exact (@indicator_word_passes profitableListing (js "lönsam") _ H1 H2 H3).
Defined.

